(** * Archive sync and delivery tracking of the idea-of-the-day archive

    A shallow embedding of [src/discord.js] and [src/sync-archives.js]:
    the date extractor ([extractDateFromPath]), the archive scanner
    ([getAllPngFiles]), the webhook delivery client ([sendToDiscord]) and the
    sync orchestrator ([sendAllArchives]).

    [src/discord.js] holds two revisions of the module.  The later one
    (native multipart body, success and failure counters, rate-limit
    cooldown) is embedded at top level; the earlier one (form-data body,
    [for ... of] loop, no counters) is embedded in [Module Earlier].
    [extractDateFromPath] and [getAllPngFiles] are the same text in both.

    The two scripts that use the module come after it: [main] of
    [src/sync-archives.js] with its reading of the environment, and the
    capture script [screenshot.js]. *)

From Stdlib Require Import ZArith NArith List Bool Ascii String Lia.
From Stdlib Require Import Permutation Sorted.
From Stdlib Require Import Numbers.DecimalString.
From Stdlib Require DecimalPos DecimalN.
Import ListNotations.

Local Open Scope string_scope.
Local Open Scope Z_scope.

(* ===================================================================== *)
(** ** JavaScript strings

    A JavaScript string is modelled by a [string]: one [ascii] per UTF-16
    code unit, for strings whose code units are below 256. *)
(* ===================================================================== *)

Definition code (c : ascii) : N := N_of_ascii c.

(** [\d] : the decimal digits. *)
Definition is_digit (c : ascii) : bool :=
  ((48 <=? code c) && (code c <=? 57))%N.

(** [\w] : [A-Za-z0-9_]. *)
Definition is_word (c : ascii) : bool :=
  (is_digit c
   || ((65 <=? code c) && (code c <=? 90))
   || ((97 <=? code c) && (code c <=? 122))
   || (code c =? 95))%N.

(** [\s] : the white space and line terminator code units below 256:
    TAB, LF, VT, FF, CR, SPACE and NO-BREAK SPACE. *)
Definition is_space (c : ascii) : bool :=
  (((9 <=? code c) && (code c <=? 13)) || (code c =? 32) || (code c =? 160))%N.

Definition is_empty (s : string) : bool :=
  match s with EmptyString => true | String _ _ => false end.

(** Every code unit of [s] is in the class [p]. *)
Fixpoint all_in (p : ascii -> bool) (s : string) : bool :=
  match s with
  | EmptyString => true
  | String c s' => p c && all_in p s'
  end.

(** The longest prefix of [s] in the class [p], and what follows it. *)
Fixpoint span (p : ascii -> bool) (s : string) : string * string :=
  match s with
  | EmptyString => (EmptyString, EmptyString)
  | String c s' =>
      if p c then let (a, b) := span p s' in (String c a, b)
      else (EmptyString, s)
  end.

(** [String.prototype.startsWith]. *)
Definition startsWith (s t : string) : bool := String.prefix t s.

(** [String.prototype.includes]: [t] occurs in [s]. *)
Fixpoint includes (s t : string) : bool :=
  String.prefix t s ||
  match s with
  | EmptyString => false
  | String _ s' => includes s' t
  end.

(** [String.prototype.endsWith]. *)
Fixpoint endsWith (s t : string) : bool :=
  (s =? t)%string ||
  match s with
  | EmptyString => false
  | String _ s' => endsWith s' t
  end.

(* ===================================================================== *)
(** ** [path.basename] and [path.join] (POSIX) *)
(* ===================================================================== *)

Definition slash : ascii := "/"%char.

(** Drops the trailing slashes of a path. *)
Fixpoint strip_trailing_slashes (s : string) : string :=
  match s with
  | EmptyString => EmptyString
  | String c s' =>
      match strip_trailing_slashes s' with
      | EmptyString => if Ascii.eqb c slash then EmptyString else String c EmptyString
      | r => String c r
      end
  end.

(** What follows the last slash of [s] ([acc] when no slash is left). *)
Fixpoint after_last_slash (acc s : string) : string :=
  match s with
  | EmptyString => acc
  | String c s' =>
      if Ascii.eqb c slash then after_last_slash s' s'
      else after_last_slash acc s'
  end.

(** [path.basename(p)]: the last portion of [p], trailing separators
    ignored. *)
Definition basename (p : string) : string :=
  let q := strip_trailing_slashes p in after_last_slash q q.

(** [path.join(dir, name)] for a normalised, non-empty [dir] that does not
    end in a slash and a directory entry name [name] (one segment, neither
    [.] nor [..]): the two joined by one separator. *)
Definition join (dir name : string) : string := dir ++ "/" ++ name.

(* ===================================================================== *)
(** ** The file name pattern [/^(\d+)\s+(\w+)\s+(\d+)\.png$/] *)
(* ===================================================================== *)

(** [filename.match(...)]: [Some (day, month, year)] holds the three
    captured groups, [None] is JavaScript's [null].  Neighbouring classes of
    the pattern are disjoint ([\d] and [\w] from [\s], [\d] from [.]), so
    each group is the longest run of its class. *)
Definition match_date (filename : string) : option (string * string * string) :=
  let (d, r1) := span is_digit filename in
  if is_empty d then None else
  let (w1, r2) := span is_space r1 in
  if is_empty w1 then None else
  let (m, r3) := span is_word r2 in
  if is_empty m then None else
  let (w2, r4) := span is_space r3 in
  if is_empty w2 then None else
  let (y, r5) := span is_digit r4 in
  if is_empty y then None else
  if (r5 =? ".png")%string then Some (d, m, y) else None.

(** The pattern read as a regular expression: the subject is a non-empty run
    of digits, white space, word characters, white space and digits, then
    [.png], and nothing else. *)
Definition Matches (filename d m y : string) : Prop :=
  exists w1 w2,
    filename = d ++ w1 ++ m ++ w2 ++ y ++ ".png"
    /\ all_in is_digit d = true /\ d <> ""
    /\ all_in is_space w1 = true /\ w1 <> ""
    /\ all_in is_word m = true /\ m <> ""
    /\ all_in is_space w2 = true /\ w2 <> ""
    /\ all_in is_digit y = true /\ y <> "".

(* ===================================================================== *)
(** ** Numbers and [parseInt] *)
(* ===================================================================== *)

(** The Number values this program computes with: integers, and [NaN]. *)
Inductive jsnum : Type :=
| Num (z : Z)
| NaN.

Definition digit_value (c : ascii) : Z := Z.of_N (code c) - 48.

Fixpoint parse_digits (acc : Z) (s : string) : Z :=
  match s with
  | EmptyString => acc
  | String c s' => parse_digits (10 * acc + digit_value c) s'
  end.

(** [parseInt(s)] on a string of decimal digits, as the pattern's groups
    are: its value in base ten.  The Number [parseInt] returns is this
    integer up to 2^53; beyond, it is a rounded value that is at least 2^53,
    and a year or a day that large is out of the range of [Date] either
    way. *)
Definition parseInt (s : string) : Z := parse_digits 0 s.

(* ===================================================================== *)
(** ** [Date]: ECMAScript time values

    A time value is a number of milliseconds since 1 January 1970 UTC.
    [new Date(year, monthIndex, day)] reads its arguments in local time;
    [LocalTZA] below is the offset of the local time zone, in milliseconds,
    at a local time.  The functions are those of the ECMAScript
    specification of [Date], on integers. *)
(* ===================================================================== *)

Definition msPerDay : Z := 86400000.

Definition Day (t : Z) : Z := t / msPerDay.
Definition TimeWithinDay (t : Z) : Z := t mod msPerDay.

Definition DaysInYear (y : Z) : Z :=
  if negb (y mod 4 =? 0) then 365
  else if negb (y mod 100 =? 0) then 366
  else if negb (y mod 400 =? 0) then 365
  else 366.

Definition isLeapYear (y : Z) : bool := DaysInYear y =? 366.

Definition DayFromYear (y : Z) : Z :=
  365 * (y - 1970) + (y - 1969) / 4 - (y - 1901) / 100 + (y - 1601) / 400.

(** The year a day number falls in: the largest [y] with
    [DayFromYear y <= d] (lemma [year_of_day_spec] below). *)
Definition year_of_day (d : Z) : Z :=
  let y := 1970 + (400 * d) / 146097 in
  if d <? DayFromYear y then y - 1
  else if DayFromYear (y + 1) <=? d then y + 1
  else y.

Definition YearFromTime (t : Z) : Z := year_of_day (Day t).

Definition InLeapYear (t : Z) : bool := isLeapYear (YearFromTime t).

Definition DayWithinYear (t : Z) : Z := Day t - DayFromYear (YearFromTime t).

(** Number of days of the year before month [m] (0 is January). *)
Definition month_start (leap : bool) (m : Z) : Z :=
  let l := if leap then 1 else 0 in
  if m <=? 0 then 0
  else if m =? 1 then 31
  else if m =? 2 then 59 + l
  else if m =? 3 then 90 + l
  else if m =? 4 then 120 + l
  else if m =? 5 then 151 + l
  else if m =? 6 then 181 + l
  else if m =? 7 then 212 + l
  else if m =? 8 then 243 + l
  else if m =? 9 then 273 + l
  else if m =? 10 then 304 + l
  else if m =? 11 then 334 + l
  else 365 + l.

Definition DaysInMonth (y m : Z) : Z :=
  month_start (isLeapYear y) (m + 1) - month_start (isLeapYear y) m.

Definition MonthFromTime (t : Z) : Z :=
  let d := DayWithinYear t in
  let l := if InLeapYear t then 1 else 0 in
  if d <? 31 then 0
  else if d <? 59 + l then 1
  else if d <? 90 + l then 2
  else if d <? 120 + l then 3
  else if d <? 151 + l then 4
  else if d <? 181 + l then 5
  else if d <? 212 + l then 6
  else if d <? 243 + l then 7
  else if d <? 273 + l then 8
  else if d <? 304 + l then 9
  else if d <? 334 + l then 10
  else 11.

Definition DateFromTime (t : Z) : Z :=
  DayWithinYear t - month_start (InLeapYear t) (MonthFromTime t) + 1.

(** [MakeDay(year, month, date)]: the day number of the first of the month,
    plus [date - 1]; months and days outside their range carry over. *)
Definition MakeDay (year month date : Z) : Z :=
  let ym := year + month / 12 in
  let mn := month mod 12 in
  DayFromYear ym + month_start (isLeapYear ym) mn + date - 1.

Definition MakeDate (day time : Z) : Z := day * msPerDay + time.

(** [TimeClip]: a time value is at most 8.64e15 in magnitude. *)
Definition maxTime : Z := 8640000000000000.

Definition TimeClip (t : Z) : jsnum :=
  if maxTime <? Z.abs t then NaN else Num t.

(** [UTC(t)]: the time value of the local time [t]. *)
Definition UTC (LocalTZA : Z -> Z) (t : Z) : Z := t - LocalTZA t.

(** [new Date(year, monthIndex, day).getTime()] for integer arguments.  A
    year from 0 to 99 stands for 1900 + year.  The hours, minutes, seconds
    and milliseconds are zero. *)
Definition Date_getTime (LocalTZA : Z -> Z) (year monthIndex day : Z) : jsnum :=
  let yr := if (0 <=? year) && (year <=? 99) then 1900 + year else year in
  TimeClip (UTC LocalTZA (MakeDate (MakeDay yr monthIndex day) 0)).

(** The time zone of the examples. *)
Definition utc_zone : Z -> Z := fun _ => 0.

(* ===================================================================== *)
(** ** [extractDateFromPath] *)
(* ===================================================================== *)

Definition months : list string :=
  ["January"; "February"; "March"; "April"; "May"; "June";
   "July"; "August"; "September"; "October"; "November"; "December"].

(** [Array.prototype.indexOf]: the first index of [x], or [-1]. *)
Fixpoint indexOf (l : list string) (x : string) : Z :=
  match l with
  | [] => -1
  | y :: l' =>
      if (y =? x)%string then 0
      else let i := indexOf l' x in if i =? -1 then -1 else i + 1
  end.

Definition extractDateFromPath (LocalTZA : Z -> Z) (filePath : string) : jsnum :=
  let filename := basename filePath in
  match match_date filename with
  | Some (d, monthName, y) =>
      let day := parseInt d in
      let year := parseInt y in
      let monthIndex := indexOf months monthName in
      if negb (monthIndex =? -1) then Date_getTime LocalTZA year monthIndex day
      else Num 0
  | None => Num 0
  end.

(* ===================================================================== *)
(** ** [Array.prototype.sort] with a comparator

    ECMAScript fixes the result of [sort] when the comparator is consistent:
    the stable arrangement in which no element is followed by a smaller one
    (lemma [files_sort_canonical] below).  The insertion sort here computes
    it.  A comparator result of [NaN] is read as [+0], as [sort] does; with
    such results the comparator is not consistent, and an element then stays
    where it is unless the comparator puts it after a neighbour. *)
(* ===================================================================== *)

Definition num_sub (a b : jsnum) : jsnum :=
  match a, b with
  | Num x, Num y => Num (x - y)
  | _, _ => NaN
  end.

(** The comparator's verdict "[a] goes after [b]": a result above zero. *)
Definition goes_after (v : jsnum) : bool :=
  match v with
  | Num z => 0 <? z
  | NaN => false
  end.

Section Sort.
Context {A : Type} (compareFn : A -> A -> jsnum).

Fixpoint insert (x : A) (l : list A) : list A :=
  match l with
  | [] => [x]
  | y :: l' => if goes_after (compareFn x y) then y :: insert x l' else x :: l
  end.

Fixpoint Array_sort (l : list A) : list A :=
  match l with
  | [] => []
  | x :: l' => insert x (Array_sort l')
  end.
End Sort.

(** [Array.prototype.includes] on an array of strings. *)
Definition Array_includes (l : list string) (x : string) : bool :=
  existsb (String.eqb x) l.

(** [Array.prototype.indexOf] as a position ([length l] when absent; the
    callers below only ask for elements of the array). *)
Fixpoint position (l : list string) (x : string) : nat :=
  match l with
  | [] => O
  | y :: l' => if (y =? x)%string then O else S (position l' x)
  end.

(* ===================================================================== *)
(** ** The environment: file system, sent log, webhook endpoint *)
(* ===================================================================== *)

(** A directory entry as [readdirSync(dir, {withFileTypes: true})] gives it:
    a regular file, a directory with its own entries, or something that is
    neither ([isFile()] and [isDirectory()] both false). *)
#[local] Unset Elimination Schemes.
Inductive entry : Type :=
| FileEntry (name : string)
| DirEntry (name : string) (items : list entry)
| OtherEntry (name : string).
#[local] Set Elimination Schemes.

Definition entry_name (e : entry) : string :=
  match e with
  | FileEntry n | DirEntry n _ | OtherEntry n => n
  end.

(** What a path refers to, when it exists.  Permissions are not modelled: a
    regular file can be read. *)
Inductive ftype : Type := RegularFile | Directory.

Record request : Type := { url : string; attachment : string }.

(** What [await fetch(...)] comes back with: a response, or a rejection. *)
Inductive fetch_outcome : Type :=
| Response (status : N) (body : string)
| FetchFailed (message : string).

(** [archives dir] is the tree below [dir] ([None]: no such directory);
    [stat p] is what the path [p] refers to; [endpoint hist r] is the
    webhook's answer to [r] after the requests [hist]. *)
Record world : Type := {
  archives : string -> option (list entry);
  stat : string -> option ftype;
  endpoint : list request -> request -> fetch_outcome
}.

(** The content of [.discord-sent.json]: no file, a file [JSON.parse]
    rejects, or the array of paths a run wrote. *)
Inductive stored : Type :=
| Absent
| Unparsable
| Saved (paths : list string).

Inductive message : Type :=
| CouldNotParseSentLog
| FoundArchiveFiles (n : nat)
| AlreadySent (n : nat)
| NewFilesToSend (n : nat)
| SentToDiscord (filename : string)
| Waiting (delayMs : Z)
| WaitingBeforeNext (delayMs : Z) (done total : nat)
| FailedToSend (file reason : string)
| RateLimitedWaiting
| SyncComplete
| SentCount (n : nat)
| FailedCount (n : nat)
| SyncCompleteSent (n : nat).

(** What a run does, in order.  [Call p] marks the entry into
    [sendToDiscord] with image path [p]; [Fetch r] is a call of [fetch] with
    the request [r]. *)
Inductive event : Type :=
| Call (imagePath : string)
| Fetch (r : request)
| WriteSentLog (content : list string)
| Sleep (ms : Z)
| Console (m : message).

(** The variables of [sendAllArchives] that its loop assigns, the sent log
    on disk, and the events so far. *)
Record state : Type := {
  sentFiles : list string;
  successCount : nat;
  failCount : nat;
  disk : stored;
  trace : list event
}.

(* ===================================================================== *)
(** ** Statements: state and exceptions *)
(* ===================================================================== *)

Inductive result (A : Type) : Type :=
| Return (a : A)
| Throw (message : string).
Arguments Return {A} a.
Arguments Throw {A} message.

Definition M (A : Type) : Type := state -> result A * state.

Definition ret {A} (a : A) : M A := fun s => (Return a, s).

Definition throw {A} (message : string) : M A := fun s => (Throw message, s).

Definition bind {A B} (m : M A) (k : A -> M B) : M B :=
  fun s =>
    match m s with
    | (Return a, s') => k a s'
    | (Throw e, s') => (Throw e, s')
    end.

(** [try { body } catch (error) { handler(error.message) }]: the handler
    runs in the state the body left. *)
Definition try_catch {A} (body : M A) (handler : string -> M A) : M A :=
  fun s =>
    match body s with
    | (Return a, s') => (Return a, s')
    | (Throw e, s') => handler e s'
    end.

Declare Scope js_scope.
Delimit Scope js_scope with js.
Notation "x <- m ;; k" := (bind m (fun x => k))
  (at level 61, m at next level, right associativity) : js_scope.
Notation "m ;; k" := (bind m (fun _ => k))
  (at level 61, right associativity) : js_scope.
Local Open Scope js_scope.

Definition get : M state := fun s => (Return s, s).

Definition modify (f : state -> state) : M unit := fun s => (Return tt, f s).

Definition with_trace (s : state) (tr : list event) : state :=
  {| sentFiles := sentFiles s; successCount := successCount s;
     failCount := failCount s; disk := disk s; trace := tr |}.

Definition emit (e : event) : M unit :=
  modify (fun s => with_trace s (trace s ++ [e])).

Definition console (m : message) : M unit := emit (Console m).

(** [await new Promise(resolve => setTimeout(resolve, ms))]. *)
Definition sleep (ms : Z) : M unit := emit (Sleep ms).

Definition set_sentFiles (l : list string) : M unit :=
  modify (fun s => {| sentFiles := l; successCount := successCount s;
                      failCount := failCount s; disk := disk s;
                      trace := trace s |}).

Definition set_counts (succeeded failed : nat) : M unit :=
  modify (fun s => {| sentFiles := sentFiles s; successCount := succeeded;
                      failCount := failed; disk := disk s;
                      trace := trace s |}).

(** [fs.writeFileSync(sentLogPath, JSON.stringify(sentFiles, null, 2))]:
    the file now holds the array, whatever it held before.  The write is
    taken to succeed. *)
Definition writeSentLog : M unit :=
  modify (fun s => {| sentFiles := sentFiles s; successCount := successCount s;
                      failCount := failCount s; disk := Saved (sentFiles s);
                      trace := trace s ++ [WriteSentLog (sentFiles s)] |}).

(** [for (let i = start; ...; i++) body(i, l[i])] over the elements of an
    array that the body does not change. *)
Fixpoint for_each {A} (body : nat -> A -> M unit) (i : nat) (l : list A) : M unit :=
  match l with
  | [] => ret tt
  | x :: l' => body i x ;; for_each body (S i) l'
  end.

(** The requests sent so far. *)
Fixpoint requests (tr : list event) : list request :=
  match tr with
  | [] => []
  | Fetch r :: tr' => r :: requests tr'
  | _ :: tr' => requests tr'
  end.

(** The image paths [sendToDiscord] was called with, in order. *)
Fixpoint calls (tr : list event) : list string :=
  match tr with
  | [] => []
  | Call p :: tr' => p :: calls tr'
  | _ :: tr' => calls tr'
  end.

(** The pauses taken, in order. *)
Fixpoint sleeps (tr : list event) : list Z :=
  match tr with
  | [] => []
  | Sleep ms :: tr' => ms :: sleeps tr'
  | _ :: tr' => sleeps tr'
  end.

(** The lines written to the console, in order. *)
Fixpoint printed (tr : list event) : list message :=
  match tr with
  | [] => []
  | Console m :: tr' => m :: printed tr'
  | _ :: tr' => printed tr'
  end.

(* ===================================================================== *)
(** ** [getAllPngFiles] *)
(* ===================================================================== *)

(** One turn of the loop over [items]: [dir] is the directory read. *)
Fixpoint scan_entry (dir : string) (item : entry) : list string :=
  let fullPath := join dir (entry_name item) in
  match item with
  | DirEntry _ items => flat_map (scan_entry fullPath) items
  | FileEntry name =>
      if endsWith name ".png" && negb (startsWith name ".") then [fullPath] else []
  | OtherEntry _ => []
  end.

Definition getAllPngFiles (w : world) (dir : string) : list string :=
  match archives w dir with
  | None => []
  | Some items => flat_map (scan_entry dir) items
  end.

(* ===================================================================== *)
(** ** [sendToDiscord] *)
(* ===================================================================== *)

(** [!webhookUrl]: [undefined] ([None]) and the empty string are falsy. *)
Definition falsy (webhookUrl : option string) : bool :=
  match webhookUrl with
  | None => true
  | Some u => is_empty u
  end.

Definition existsSync (w : world) (p : string) : bool :=
  match stat w p with
  | Some _ => true
  | None => false
  end.

(** [fs.readFileSync(p)]: only a regular file can be read. *)
Definition readFileSync (w : world) (p : string) : M unit :=
  match stat w p with
  | Some RegularFile => ret tt
  | Some Directory => throw "EISDIR: illegal operation on a directory, read"
  | None => throw ("ENOENT: no such file or directory, open '" ++ p ++ "'")
  end.

(** [await fetch(webhookUrl, {method: 'POST', ...})]. *)
Definition fetch (w : world) (r : request) : M (N * string) :=
  fun s =>
    let s' := with_trace s (trace s ++ [Fetch r]) in
    match endpoint w (requests (trace s)) r with
    | Response status body => (Return (status, body), s')
    | FetchFailed e => (Throw e, s')
    end.

(** [response.ok]: the status is in the range 200-299. *)
Definition ok (status : N) : bool := ((200 <=? status) && (status <=? 299))%N.

(** A number in a template literal: its decimal digits. *)
Definition decimal (n : N) : string := NilZero.string_of_uint (N.to_uint n).

Definition webhook_required : string :=
  "Discord webhook URL is required. Set DISCORD_WEBHOOK_URL environment variable.".

Definition api_error (status : N) (errorText : string) : string :=
  "Discord API error (" ++ decimal status ++ "): " ++ errorText.

(** The URL [fetch] is given: [webhookUrl], known to be truthy. *)
Definition url_of (webhookUrl : option string) : string :=
  match webhookUrl with
  | Some u => u
  | None => ""
  end.

(** [sendToDiscord(imagePath, webhookUrl)], called without [options] as
    everywhere in the repository.  The embed, the payload and the multipart
    body decide nothing of what follows and are not modelled: a request is
    known by its URL and the file it carries. *)
Definition sendToDiscord (w : world) (imagePath : string)
    (webhookUrl : option string) : M bool :=
  emit (Call imagePath) ;;
  if falsy webhookUrl then throw webhook_required
  else if negb (existsSync w imagePath) then
    throw ("Image file not found: " ++ imagePath)
  else
    let filename := basename imagePath in
    readFileSync w imagePath ;;
    response <- fetch w {| url := url_of webhookUrl; attachment := imagePath |} ;;
    let (status, errorText) := response in
    if negb (ok status) then throw (api_error status errorText)
    else
      console (SentToDiscord filename) ;;
      ret true.

(* ===================================================================== *)
(** ** [sendAllArchives] *)
(* ===================================================================== *)

(** The comparator of [files.sort]: [dateA - dateB]. *)
Definition by_date (LocalTZA : Z -> Z) (a b : string) : jsnum :=
  num_sub (extractDateFromPath LocalTZA a) (extractDateFromPath LocalTZA b).

(** Loading the sent log: [sentFiles] stays empty when there is no file or
    [JSON.parse] throws. *)
Definition loadSentFiles : M unit :=
  s <- get ;;
  match disk s with
  | Absent => ret tt
  | Saved l => set_sentFiles l
  | Unparsable => console CouldNotParseSentLog ;; set_sentFiles []
  end.

(** The paths a sent log makes a run skip. *)
Definition recorded (d : stored) : list string :=
  match d with
  | Saved l => l
  | _ => []
  end.

Definition rate_limited (message : string) : bool :=
  includes message "rate limit" || includes message "429".

Definition cooldownMs : Z := 60000.

(** The body of the [for] loop: one [try ... catch]. *)
Definition deliver (w : world) (webhookUrl : option string) (delayMs : Z)
    (newFiles : list string) (i : nat) (file : string) : M unit :=
  try_catch
    (sendToDiscord w file webhookUrl ;;
     s <- get ;;
     set_sentFiles (sentFiles s ++ [file]) ;;
     set_counts (S (successCount s)) (failCount s) ;;
     writeSentLog ;;
     if Z.of_nat i <? Z.of_nat (List.length newFiles) - 1 then
       console (WaitingBeforeNext delayMs (i + 1) (List.length newFiles)) ;;
       sleep delayMs
     else ret tt)
    (fun error_message =>
       console (FailedToSend file error_message) ;;
       s <- get ;;
       set_counts (successCount s) (S (failCount s)) ;;
       if rate_limited error_message then
         console RateLimitedWaiting ;;
         sleep cooldownMs
       else ret tt).

(** What precedes the loop: load, discover, order, filter. *)
Definition sortedFiles (w : world) (LocalTZA : Z -> Z) (archivesDir : string) :
    list string :=
  Array_sort (by_date LocalTZA) (getAllPngFiles w archivesDir).

Definition unsent (sent files : list string) : list string :=
  filter (fun f => negb (Array_includes sent f)) files.

Definition prepare (w : world) (LocalTZA : Z -> Z) (archivesDir : string) :
    M (list string) :=
  set_sentFiles [] ;;
  loadSentFiles ;;
  let files := sortedFiles w LocalTZA archivesDir in
  console (FoundArchiveFiles (List.length files)) ;;
  s <- get ;;
  console (AlreadySent (List.length (sentFiles s))) ;;
  let newFiles := unsent (sentFiles s) files in
  console (NewFilesToSend (List.length newFiles)) ;;
  set_counts 0 0 ;;
  ret newFiles.

(** [delayMs = 2000] is the default of the third parameter. *)
Definition default_delay (delayMs : option Z) : Z :=
  match delayMs with
  | Some d => d
  | None => 2000
  end.

Definition sendAllArchives (w : world) (LocalTZA : Z -> Z) (archivesDir : string)
    (webhookUrl : option string) (delayMs : option Z) : M nat :=
  let delayMs := default_delay delayMs in
  newFiles <- prepare w LocalTZA archivesDir ;;
  for_each (deliver w webhookUrl delayMs newFiles) 0 newFiles ;;
  console SyncComplete ;;
  s <- get ;;
  console (SentCount (successCount s)) ;;
  console (FailedCount (failCount s)) ;;
  ret (successCount s).

(** A run stopped from outside after [k] turns of the loop. *)
Definition interrupted (k : nat) (w : world) (LocalTZA : Z -> Z)
    (archivesDir : string) (webhookUrl : option string) (delayMs : option Z) :
    M unit :=
  let delayMs := default_delay delayMs in
  newFiles <- prepare w LocalTZA archivesDir ;;
  for_each (deliver w webhookUrl delayMs newFiles) 0 (firstn k newFiles).

(** [DELAY_MS] of [sync-archives.js]:
    [parseInt(process.env.DISCORD_DELAY_MS) || 2000], given what [parseInt]
    returned.  [NaN] and [0] are falsy. *)
Definition DELAY_MS (parsed : jsnum) : Z :=
  match parsed with
  | Num z => if z =? 0 then 2000 else z
  | NaN => 2000
  end.

(** A process start: nothing sent, nothing printed, the sent log as found. *)
Definition start (d : stored) : state :=
  {| sentFiles := []; successCount := 0; failCount := 0; disk := d; trace := [] |}.

(** A later process start, after the events [tr]. *)
Definition restart (s : state) : state :=
  {| sentFiles := []; successCount := 0; failCount := 0; disk := disk s;
     trace := trace s |}.

(* ===================================================================== *)
(** ** The earlier revision of [src/discord.js] *)
(* ===================================================================== *)

Module Earlier.

(** The image is attached as a stream ([fs.createReadStream]), which reads
    nothing before the request is made. *)
Definition sendToDiscord (w : world) (imagePath : string)
    (webhookUrl : option string) : M bool :=
  emit (Call imagePath) ;;
  if falsy webhookUrl then throw webhook_required
  else if negb (existsSync w imagePath) then
    throw ("Image file not found: " ++ imagePath)
  else
    let filename := basename imagePath in
    response <- fetch w {| url := url_of webhookUrl; attachment := imagePath |} ;;
    let (status, errorText) := response in
    if negb (ok status) then throw (api_error status errorText)
    else
      console (SentToDiscord filename) ;;
      ret true.

(** The body of [for (const file of newFiles)]. *)
Definition deliver (w : world) (webhookUrl : option string) (delayMs : Z)
    (newFiles : list string) (i : nat) (file : string) : M unit :=
  try_catch
    (sendToDiscord w file webhookUrl ;;
     s <- get ;;
     set_sentFiles (sentFiles s ++ [file]) ;;
     writeSentLog ;;
     if Z.of_nat (position newFiles file) <? Z.of_nat (List.length newFiles) - 1 then
       console (Waiting delayMs) ;;
       sleep delayMs
     else ret tt)
    (fun error_message => console (FailedToSend file error_message)).

Definition prepare (w : world) (LocalTZA : Z -> Z) (archivesDir : string) :
    M (list string) :=
  set_sentFiles [] ;;
  loadSentFiles ;;
  let files := sortedFiles w LocalTZA archivesDir in
  console (FoundArchiveFiles (List.length files)) ;;
  s <- get ;;
  console (AlreadySent (List.length (sentFiles s))) ;;
  let newFiles := unsent (sentFiles s) files in
  console (NewFilesToSend (List.length newFiles)) ;;
  ret newFiles.

Definition sendAllArchives (w : world) (LocalTZA : Z -> Z) (archivesDir : string)
    (webhookUrl : option string) (delayMs : option Z) : M nat :=
  let delayMs := default_delay delayMs in
  newFiles <- prepare w LocalTZA archivesDir ;;
  for_each (deliver w webhookUrl delayMs newFiles) 0 newFiles ;;
  console (SyncCompleteSent (List.length newFiles)) ;;
  ret (List.length newFiles).

End Earlier.

(* ===================================================================== *)
(** ** What the statements below speak about *)
(* ===================================================================== *)

(** The deliveries that succeeded: one [SentToDiscord] line each. *)
Fixpoint successes (tr : list event) : nat :=
  match tr with
  | [] => O
  | Console (SentToDiscord _) :: tr' => S (successes tr')
  | _ :: tr' => successes tr'
  end.

(** The deliveries that failed: one [FailedToSend] line each. *)
Fixpoint failures (tr : list event) : nat :=
  match tr with
  | [] => O
  | Console (FailedToSend _ _) :: tr' => S (failures tr')
  | _ :: tr' => failures tr'
  end.

(** [a <= b] on dates; a date that is [NaN] is not constrained. *)
Definition not_after (a b : jsnum) : Prop :=
  match a, b with
  | Num x, Num y => (x <= y)%Z
  | _, _ => True
  end.


Definition same_date (LocalTZA : Z -> Z) (t : Z) (f : string) : bool :=
  match extractDateFromPath LocalTZA f with
  | Num z => (z =? t)%Z
  | NaN => false
  end.

(** Directory trees as a file system holds them: the names of a directory
    are pairwise different and contain no separator. *)
Fixpoint no_slash (s : string) : bool :=
  match s with
  | EmptyString => true
  | String c s' => negb (Ascii.eqb c slash) && no_slash s'
  end.

Fixpoint distinct (l : list string) : bool :=
  match l with
  | [] => true
  | x :: l' => negb (Array_includes l' x) && distinct l'
  end.

Fixpoint wf_entry (e : entry) : bool :=
  no_slash (entry_name e) &&
  match e with
  | DirEntry _ items => distinct (map entry_name items) && forallb wf_entry items
  | _ => true
  end.

Definition wf_items (items : list entry) : bool :=
  distinct (map entry_name items) && forallb wf_entry items.

Definition well_formed (w : world) (dir : string) : Prop :=
  match archives w dir with
  | None => True
  | Some items => wf_items items = true
  end.

(** The webhook accepts every request. *)
Definition accepts_all (w : world) : Prop :=
  forall hist r, exists status body,
    endpoint w hist r = Response status body /\ ok status = true.

(** Every discovered file can be read. *)
Definition readable (w : world) (dir : string) : Prop :=
  forall f, In f (getAllPngFiles w dir) -> stat w f = Some RegularFile.

(** The examples' archive: the two captures of the scenario, a hidden file,
    a text file and a link. *)
Definition december : list entry :=
  [FileEntry "9 December 2025.png"; FileEntry "10 December 2025.png";
   FileEntry ".hidden.png"; FileEntry "notes.txt"; OtherEntry "latest.png"].

Definition archive_of (items : list entry) (dir : string) : option (list entry) :=
  if (dir =? "archives")%string then Some items else None.

Definition always (status : N) (body : string) :
    list request -> request -> fetch_outcome :=
  fun _ _ => Response status body.

Definition demo_world : world :=
  {| archives := archive_of [DirEntry "2025" [DirEntry "December" december]];
     stat := fun _ => Some RegularFile;
     endpoint := always 200 "" |}.

Definition hook : option string := Some "https://discord.example/api/webhooks/1/t".

(** The work queue of a run that finds the sent log [d]: the discovered
    files in date order, without those the log names. *)
Definition workQueue (w : world) (LocalTZA : Z -> Z) (archivesDir : string)
    (d : stored) : list string :=
  unsent (recorded d) (sortedFiles w LocalTZA archivesDir).

(** The request [sendToDiscord] makes for the image [p]. *)
Definition post (p : string) (webhookUrl : option string) : request :=
  {| url := url_of webhookUrl; attachment := p |}.

(** The lines [prepare] prints. *)
Definition header (d : stored) (files newFiles : list string) : list message :=
  (match d with Unparsable => [CouldNotParseSentLog] | _ => [] end)
  ++ [FoundArchiveFiles (List.length files);
      AlreadySent (List.length (recorded d));
      NewFilesToSend (List.length newFiles)].

(** The state [prepare] leaves. *)
Definition prepared (files newFiles : list string) (s : state) : state :=
  {| sentFiles := recorded (disk s); successCount := 0; failCount := 0;
     disk := disk s;
     trace := trace s ++ map Console (header (disk s) files newFiles) |}.

(** The state a turn of the loop leaves when [sendToDiscord] returned in
    state [s1]. *)
Definition after_success (delayMs : Z) (newFiles : list string) (i : nat)
    (file : string) (s1 : state) : state :=
  {| sentFiles := sentFiles s1 ++ [file];
     successCount := S (successCount s1);
     failCount := failCount s1;
     disk := Saved (sentFiles s1 ++ [file]);
     trace := trace s1 ++ WriteSentLog (sentFiles s1 ++ [file])
              :: (if (Z.of_nat i <? Z.of_nat (List.length newFiles) - 1)%Z
                  then [Console (WaitingBeforeNext delayMs (i + 1) (List.length newFiles));
                        Sleep delayMs]
                  else []) |}.

(** The state a turn of the loop leaves when [sendToDiscord] threw [reason]
    in state [s1]. *)
Definition after_failure (file reason : string) (s1 : state) : state :=
  {| sentFiles := sentFiles s1;
     successCount := successCount s1;
     failCount := S (failCount s1);
     disk := disk s1;
     trace := trace s1 ++ Console (FailedToSend file reason)
              :: (if rate_limited reason
                  then [Console RateLimitedWaiting; Sleep cooldownMs]
                  else []) |}.

(** The last lines of a run, and the state it ends in. *)
Definition summary (s : state) : list message :=
  [SyncComplete; SentCount (successCount s); FailedCount (failCount s)].

Definition reported (s : state) : state :=
  with_trace s (trace s ++ map Console (summary s)).

(** What the loop has done between the states [s] and [s'], having gone
    through [queue] and delivered [pushed]. *)
Record progress (s : state) (queue pushed : list string) (s' : state) : Prop := {
  pushed_appended : sentFiles s' = (sentFiles s ++ pushed)%list;
  pushed_from_queue : incl pushed queue;
  pushed_once : NoDup queue -> NoDup pushed;
  counted_ok : successCount s' = (successCount s + List.length pushed)%nat;
  counted_failed :
    (failCount s' + List.length pushed = failCount s + List.length queue)%nat;
  persisted :
    disk s' = match pushed with [] => disk s | _ => Saved (sentFiles s') end;
  all_called : calls (trace s') = (calls (trace s) ++ queue)%list;
  seen_ok : successes (trace s') = (successes (trace s) + List.length pushed)%nat;
  seen_failed :
    (failures (trace s') + List.length pushed
     = failures (trace s) + List.length queue)%nat;
  trace_extends : exists evs, trace s' = (trace s ++ evs)%list
}.

(** What may follow a directory entry's name in a path: nothing, or a
    separator and more. *)
Definition tail (r : string) : Prop := r = "" \/ exists r', r = String slash r'.



(** More archives and endpoints for the examples: a webhook that answers
    429 to the first request and 204 afterwards, three captures discovered
    out of order, and a capture dated beyond the range of [Date]. *)
Definition slow_then_fine : list request -> request -> fetch_outcome :=
  fun hist _ =>
    match hist with
    | [] => Response 429 "You are being rate limited."
    | _ => Response 204 ""
    end.

Definition with_endpoint (w : world)
    (e : list request -> request -> fetch_outcome) : world :=
  {| archives := archives w; stat := stat w; endpoint := e |}.

Definition january : list entry :=
  [FileEntry "15 January 2024.png"; FileEntry "3 February 2024.png";
   FileEntry "1 January 2024.png"].

Definition january_world : world :=
  {| archives := archive_of january;
     stat := fun _ => Some RegularFile;
     endpoint := slow_then_fine |}.



(* ===================================================================== *)
(** ** The date line of a message *)
(* ===================================================================== *)

Fixpoint drop (n : nat) (s : string) : string :=
  match n, s with
  | O, _ => s
  | S n', String _ s' => drop n' s'
  | S _, EmptyString => EmptyString
  end.

(** [s.replace(pattern, replacement)] for a string pattern and a replacement
    without [$]: the first occurrence is replaced. *)
Fixpoint replace (s pattern replacement : string) : string :=
  if String.prefix pattern s then replacement ++ drop (String.length pattern) s
  else
    match s with
    | EmptyString => EmptyString
    | String c s' => String c (replace s' pattern replacement)
    end.

(** [formattedDate] of [sendToDiscord], the date in the description of the
    embed and of the attachment: the file name without [.png], or the three
    groups of the pattern when the name matches it. *)
Definition formattedDate (filename : string) : string :=
  match match_date filename with
  | Some (d, m, y) => d ++ " " ++ m ++ " " ++ y
  | None => replace filename ".png" ""
  end.

(* ===================================================================== *)
(** ** [parseInt] on any string, and [DELAY_MS] from the environment *)
(* ===================================================================== *)

(** [String.prototype.trimStart], the first step of [parseInt]. *)
Fixpoint trimStart (s : string) : string :=
  match s with
  | EmptyString => EmptyString
  | String c s' => if is_space c then trimStart s' else s
  end.

(** The value of a digit in a radix up to 16, when it is one. *)
Definition digit_in (radix : Z) (c : ascii) : option Z :=
  let n := Z.of_N (code c) in
  let v := if (48 <=? n) && (n <=? 57) then n - 48
           else if (97 <=? n) && (n <=? 102) then n - 87
           else if (65 <=? n) && (n <=? 70) then n - 55
           else 16 in
  if v <? radix then Some v else None.

Definition is_digit_in (radix : Z) (c : ascii) : bool :=
  match digit_in radix c with
  | Some _ => true
  | None => false
  end.

Fixpoint value_in (radix acc : Z) (s : string) : Z :=
  match s with
  | EmptyString => acc
  | String c s' =>
      match digit_in radix c with
      | Some v => value_in radix (radix * acc + v) s'
      | None => acc
      end
  end.

(** [parseInt(string)] without a radix: leading white space is skipped, a
    sign is read, [0x] or [0X] selects base 16, the longest run of digits is
    the number, and what follows it is ignored; no digit gives [NaN].  As
    for [parseInt] above, the Number is this integer up to 2^53. *)
Definition parseInt_text (inputString : string) : jsnum :=
  let trimmed := trimStart inputString in
  let '(sign, unsigned) :=
    match trimmed with
    | String "-" r => (-1, r)
    | String "+" r => (1, r)
    | _ => (1, trimmed)
    end in
  let '(R, body) :=
    match unsigned with
    | String "0" (String "x" r) => (16, r)
    | String "0" (String "X" r) => (16, r)
    | _ => (10, unsigned)
    end in
  let (digits, _) := span (is_digit_in R) body in
  if is_empty digits then NaN else Num (sign * value_in R 0 digits).

(** [process.env.NAME] as [parseInt] reads it: the string, or the string
    [undefined] when the variable is not set. *)
Definition ToString (v : option string) : string :=
  match v with
  | Some s => s
  | None => "undefined"
  end.

(** [DELAY_MS] of [sync-archives.js], from [process.env.DISCORD_DELAY_MS]. *)
Definition DELAY_MS_env (DISCORD_DELAY_MS : option string) : Z :=
  DELAY_MS (parseInt_text (ToString DISCORD_DELAY_MS)).

(* ===================================================================== *)
(** ** Scripts: processes that can exit *)
(* ===================================================================== *)

(** The console lines of [sync-archives.js] and [screenshot.js]. *)
Inductive line : Type :=
| StartingSync
| Rule
| WebhookNotConfigured
| BlankError
| PleaseSetIt
| HowToPassIt
| ArchivesDirectory (dir : string)
| DelayBetweenMessages (ms : Z)
| Blank
| Synced (count : nat)
| SyncFailed (reason : string)
| Capturing (filePath : string)
| Navigating
| WaitingForLoad
| TakingScreenshot
| ScreenshotSaved (filePath : string)
| SendingToDiscord
| SentOk
| DiscordFailed (reason : string)
| WebhookNotSet
| HowToEnable
| ErrorOccurred (reason : string)
| ScriptFailed (reason : string).

(** What a script does, in order: what [discord.js] does for it, its own
    console lines, and the calls of [screenshot.js] to the file system, the
    browser and the timer (a call is recorded whether it returns or
    throws). *)
Inductive pevent : Type :=
| Discord (e : event)
| Print (l : line)
| MkDir (path : string)
| Launch
| NewPage
| SetViewport (width height deviceScaleFactor : Z)
| Goto (url : string)
| Timer (ms : Z)
| Screenshot (path : string)
| Close.

(** The state of a script: whether the variable [browser] of
    [screenshot.js] is truthy, the sent log on disk, the events so far. *)
Record process : Type := {
  browser : bool;
  pdisk : stored;
  ptrace : list pevent
}.

(** How a statement of a script ends: normally, by a throw, or by
    [process.exit], which no [catch] and no [finally] sees. *)
Inductive outcome (A : Type) : Type :=
| Done (a : A)
| Thrown (message : string)
| Exited (code : Z).
Arguments Done {A} a.
Arguments Thrown {A} message.
Arguments Exited {A} code.

Definition P (A : Type) : Type := process -> outcome A * process.

Definition pret {A} (a : A) : P A := fun p => (Done a, p).

Definition pthrow {A} (message : string) : P A := fun p => (Thrown message, p).

(** [process.exit(code)]. *)
Definition exit {A} (code : Z) : P A := fun p => (Exited code, p).

Definition pbind {A B} (m : P A) (k : A -> P B) : P B :=
  fun p =>
    match m p with
    | (Done a, p') => k a p'
    | (Thrown e, p') => (Thrown e, p')
    | (Exited c, p') => (Exited c, p')
    end.

(** [try { body } catch (error) { handler(error.message) }]. *)
Definition ptry {A} (body : P A) (handler : string -> P A) : P A :=
  fun p =>
    match body p with
    | (Thrown e, p') => handler e p'
    | r => r
    end.

(** [try { body } finally { final }]: [final] runs after [body] however it
    ended, short of [process.exit]; when [final] throws, that is the
    throw. *)
Definition pfinally {A} (body : P A) (final : P unit) : P A :=
  fun p =>
    match body p with
    | (Exited c, p') => (Exited c, p')
    | (r, p') =>
        match final p' with
        | (Done _, p'') => (r, p'')
        | (Thrown e, p'') => (Thrown e, p'')
        | (Exited c, p'') => (Exited c, p'')
        end
    end.

Declare Scope proc_scope.
Delimit Scope proc_scope with proc.
Notation "x <- m ;; k" := (pbind m (fun x => k))
  (at level 61, m at next level, right associativity) : proc_scope.
Notation "m ;; k" := (pbind m (fun _ => k))
  (at level 61, right associativity) : proc_scope.

Definition pget : P process := fun p => (Done p, p).

Definition record (e : pevent) (p : process) : process :=
  {| browser := browser p; pdisk := pdisk p; ptrace := ptrace p ++ [e] |}.

Definition print (l : line) : P unit := fun p => (Done tt, record (Print l) p).

(** A call that returns ([None]) or throws ([Some message]). *)
Definition call (e : pevent) (throws : option string) : P unit :=
  fun p =>
    match throws with
    | None => (Done tt, record e p)
    | Some message => (Thrown message, record e p)
    end.

Definition set_browser (b : bool) : P unit :=
  fun p => (Done tt, {| browser := b; pdisk := pdisk p; ptrace := ptrace p |}).

(** The events of [discord.js] among those of a script. *)
Fixpoint inner (tr : list pevent) : list event :=
  match tr with
  | [] => []
  | Discord e :: tr' => e :: inner tr'
  | _ :: tr' => inner tr'
  end.

(** A call into [discord.js] from a script: it finds the sent log as the
    script's process has it and the requests made so far, and what it does
    is added to the script's events. *)
Definition lift {A} (m : M A) : P A :=
  fun p =>
    let s := {| sentFiles := []; successCount := 0; failCount := 0;
                disk := pdisk p; trace := inner (ptrace p) |} in
    let (r, s') := m s in
    let p' := {| browser := browser p; pdisk := disk s';
                 ptrace := ptrace p
                           ++ map Discord
                                (skipn (List.length (inner (ptrace p))) (trace s')) |} in
    match r with
    | Return a => (Done a, p')
    | Throw e => (Thrown e, p')
    end.

(** A script starts with nothing done. *)
Definition boot (d : stored) : process :=
  {| browser := false; pdisk := d; ptrace := [] |}.

Local Open Scope proc_scope.

(* ===================================================================== *)
(** ** [src/sync-archives.js] *)
(* ===================================================================== *)


(* ===================================================================== *)
(** ** [screenshot.js] *)
(* ===================================================================== *)

(** What [screenshot.js] reads from [new Date()]: the year, the month index
    (from 0 to 11 for any date, so that [monthNames] has a name for it) and
    the day of the month, in local time. *)
Record clock : Type := {
  getFullYear : N;
  getMonth : nat;
  getDate : N
}.

Definition monthNames : list string :=
  ["January"; "February"; "March"; "April"; "May"; "June";
   "July"; "August"; "September"; "October"; "November"; "December"].

(** [monthNames[now.getMonth()]]. *)
Definition monthName (now : clock) : string :=
  nth (getMonth now) monthNames "undefined".

(** [path.join('archives', String(year), monthName)]. *)
Definition archiveDir (now : clock) : string :=
  join (join "archives" (decimal (getFullYear now))) (monthName now).

(** The file name, in the format [14 July 2025.png]. *)
Definition captureName (now : clock) : string :=
  decimal (getDate now) ++ " " ++ monthName now ++ " "
  ++ decimal (getFullYear now) ++ ".png".

(** [filePath]. *)
Definition capturePath (now : clock) : string :=
  join (archiveDir now) (captureName now).

(** How the calls of [screenshot.js] to the file system and to the browser
    end: [None] when the call returns, [Some message] when it throws.
    [close_throws n] is for the call of [browser.close()] that comes after
    [n] others. *)
Record puppeteer : Type := {
  mkdirSync_throws : option string;
  launch_throws : option string;
  newPage_throws : option string;
  setViewport_throws : option string;
  goto_throws : option string;
  screenshot_throws : option string;
  close_throws : nat -> option string
}.

(** The calls of [browser.close()] so far. *)
Fixpoint closes (tr : list pevent) : nat :=
  match tr with
  | [] => O
  | Close :: tr' => S (closes tr')
  | _ :: tr' => closes tr'
  end.

(** [await browser.close()]. *)
Definition close_browser (b : puppeteer) : P unit :=
  fun p => call Close (close_throws b (closes (ptrace p))) p.

(** The file system once [page.screenshot] has written [path]. *)
Definition with_file (w : world) (path : string) : world :=
  {| archives := archives w;
     stat := fun p => if (p =? path)%string then Some RegularFile else stat w p;
     endpoint := endpoint w |}.

(** The script: the [async] function with its [try], [catch] and
    [finally], and the [.catch] that ends the process. *)
Definition screenshot_js (w : world) (b : puppeteer) (now : clock)
    (DISCORD_WEBHOOK_URL : option string) : P unit :=
  ptry
    (pfinally
       (ptry
          (let filePath := capturePath now in
           (if negb (existsSync w (archiveDir now)) then
              call (MkDir (archiveDir now)) (mkdirSync_throws b)
            else pret tt) ;;
           print (Capturing filePath) ;;
           call Launch (launch_throws b) ;;
           set_browser true ;;
           call NewPage (newPage_throws b) ;;
           call (SetViewport 1920 1080 2) (setViewport_throws b) ;;
           print Navigating ;;
           call (Goto "https://www.ideabrowser.com/") (goto_throws b) ;;
           print WaitingForLoad ;;
           call (Timer 3000) None ;;
           print TakingScreenshot ;;
           call (Screenshot filePath) (screenshot_throws b) ;;
           print (ScreenshotSaved filePath) ;;
           close_browser b ;;
           set_browser false ;;
           let webhookUrl := DISCORD_WEBHOOK_URL in
           if negb (falsy webhookUrl) then
             print SendingToDiscord ;;
             ptry
               (lift (sendToDiscord (with_file w filePath) filePath webhookUrl) ;;
                print SentOk)
               (fun discordError => print (DiscordFailed discordError))
           else
             print WebhookNotSet ;;
             print HowToEnable)
          (fun error_message =>
             print (ErrorOccurred error_message) ;;
             pthrow error_message))
       (p <- pget ;;
        if browser p then close_browser b else pret tt))
    (fun error_message =>
       print (ScriptFailed error_message) ;;
       exit 1).

Local Close Scope proc_scope.

(* ===================================================================== *)
(** ** What the statements on the scanner, the names and the scripts speak
    about *)
(* ===================================================================== *)

(** The test [getAllPngFiles] makes on the name of a regular file. *)
Definition is_png (name : string) : bool :=
  endsWith name ".png" && negb (startsWith name ".").

(** [listed dir items p]: [p] is the path, below [dir], of a regular file of
    the tree [items] whose name passes the test; directories are entered
    whatever their name. *)
Inductive listed : string -> list entry -> string -> Prop :=
| listed_here dir items name :
    In (FileEntry name) items -> is_png name = true ->
    listed dir items (join dir name)
| listed_below dir items name sub p :
    In (DirEntry name sub) items -> listed (join dir name) sub p ->
    listed dir items p.

(** The path refers to a regular file. *)
Definition is_regular (w : world) (p : string) : bool :=
  match stat w p with
  | Some RegularFile => true
  | _ => false
  end.

(** What does not begin with white space: [trimStart] leaves it as it
    is. *)
Definition trimmed (s : string) : Prop :=
  match s with
  | "" => True
  | String c _ => is_space c = false
  end.

(** A clock reading that is a date of the calendar, in the years where a
    name of [screenshot.js] reads back as the same year ([Date] takes a
    year below 100 for 1900 + year) and [Date] has a value. *)
Definition on_calendar (now : clock) : Prop :=
  100 <= Z.of_N (getFullYear now) <= 275759
  /\ (getMonth now < 12)%nat
  /\ 1 <= Z.of_N (getDate now)
       <= DaysInMonth (Z.of_N (getFullYear now)) (Z.of_nat (getMonth now)).

(** [a] is a day before [b]. *)
Definition day_before (a b : clock) : Prop :=
  (getFullYear a < getFullYear b)%N
  \/ getFullYear a = getFullYear b
     /\ ((getMonth a < getMonth b)%nat
         \/ getMonth a = getMonth b /\ (getDate a < getDate b)%N).

(** Time zones: the offset from UTC is at most a day, and two offsets of
    the zone differ by less than a day. *)
Definition zone (LocalTZA : Z -> Z) : Prop :=
  (forall t, Z.abs (LocalTZA t) <= msPerDay)
  /\ (forall t t', Z.abs (LocalTZA t - LocalTZA t') < msPerDay).

(** The path of a capture as the sync sees it, below the archive directory
    [dir] it scans; [capturePath] is the case of the relative directory
    [archives]. *)
Definition archivedPath (dir : string) (now : clock) : string :=
  join (join (join dir (decimal (getFullYear now))) (monthName now))
       (captureName now).

(** The calls of [screenshot.js] to the file system and to the browser all
    return. *)
Definition captured (w : world) (b : puppeteer) (now : clock) : bool :=
  (existsSync w (archiveDir now)
   || match mkdirSync_throws b with None => true | Some _ => false end)
  && match launch_throws b, newPage_throws b, setViewport_throws b,
           goto_throws b, screenshot_throws b, close_throws b 0 with
     | None, None, None, None, None, None => true
     | _, _, _, _, _, _ => false
     end.

(** [puppeteer.launch] was called and returned a browser. *)
Definition launched (w : world) (b : puppeteer) (now : clock) : bool :=
  (existsSync w (archiveDir now)
   || match mkdirSync_throws b with None => true | Some _ => false end)
  && match launch_throws b with None => true | Some _ => false end.

(** The calls on the page all returned, so that the script reached its own
    call of [browser.close()]. *)
Definition page_done (b : puppeteer) : bool :=
  match newPage_throws b, setViewport_throws b, goto_throws b,
        screenshot_throws b with
  | None, None, None, None => true
  | _, _, _, _ => false
  end.

(** The events of [screenshot.js] when every call up to the closing of the
    browser returns. *)
Definition capture_events (w : world) (now : clock) : list pevent :=
  ((if existsSync w (archiveDir now) then [] else [MkDir (archiveDir now)])
   ++ [Print (Capturing (capturePath now)); Launch; NewPage;
       SetViewport 1920 1080 2; Print Navigating;
       Goto "https://www.ideabrowser.com/"; Print WaitingForLoad; Timer 3000;
       Print TakingScreenshot; Screenshot (capturePath now);
       Print (ScreenshotSaved (capturePath now)); Close])%list.

(** A browser whose calls all return, and two clock readings, for the
    examples. *)
Definition quiet : puppeteer :=
  {| mkdirSync_throws := None; launch_throws := None; newPage_throws := None;
     setViewport_throws := None; goto_throws := None; screenshot_throws := None;
     close_throws := fun _ => None |}.

Definition december_9 : clock :=
  {| getFullYear := 2025; getMonth := 11; getDate := 9 |}.

Definition december_10 : clock :=
  {| getFullYear := 2025; getMonth := 11; getDate := 10 |}.

(* ===================================================================== *)
(** * Strings and the file name pattern *)
(* ===================================================================== *)

Local Close Scope Z_scope.

Lemma append_assoc (a b c : string) : (a ++ b) ++ c = a ++ b ++ c.
Proof. induction a; cbn; [reflexivity | now rewrite IHa]. Qed.

Lemma append_nil_r (a : string) : a ++ "" = a.
Proof. induction a; cbn; [reflexivity | now rewrite IHa]. Qed.

Lemma prefix_spec (t s : string) :
  String.prefix t s = true <-> exists b, s = t ++ b.
Proof.
  revert s. induction t as [|c t IH]; intros s.
  - destruct s; cbn; split; eauto.
  - destruct s as [|c' s]; cbn.
    + split; [discriminate | intros [b Hb]; discriminate].
    + destruct (Ascii.ascii_dec c c') as [->|N].
      * rewrite IH. split; intros [b Hb]; exists b; congruence.
      * split; [discriminate | intros [b Hb]; congruence].
Qed.

Lemma includes_spec (s t : string) :
  includes s t = true <-> exists a b, s = a ++ t ++ b.
Proof.
  induction s as [|c s IH].
  - cbn [includes]. rewrite orb_false_r, prefix_spec. split.
    + intros [b Hb]. exists "", b. exact Hb.
    + intros [a [b Hb]]. destruct a; cbn in Hb; [eauto | discriminate].
  - cbn [includes]. rewrite orb_true_iff, prefix_spec, IH. split.
    + intros [[b Hb] | [a [b Hb]]].
      * exists "", b. exact Hb.
      * exists (String c a), b. cbn. now rewrite Hb.
    + intros [a [b Hb]]. destruct a as [|c' a]; cbn in Hb.
      * left. eauto.
      * right. exists a, b. congruence.
Qed.

Lemma includes_middle (a t b : string) : includes (a ++ t ++ b) t = true.
Proof. apply includes_spec. eauto. Qed.

Lemma span_spec p s a b :
  span p s = (a, b) ->
  s = a ++ b /\ all_in p a = true
  /\ match b with EmptyString => True | String c _ => p c = false end.
Proof.
  revert a b. induction s as [|c s IH]; intros a b; cbn.
  - intros [= <- <-]. auto.
  - destruct (p c) eqn:E.
    + destruct (span p s) as [a' b']. intros [= <- <-].
      destruct (IH _ _ eq_refl) as (-> & Ha & Hb). cbn. rewrite E. auto.
    + intros [= <- <-]. cbn. auto.
Qed.

Lemma span_unique p a b :
  all_in p a = true ->
  match b with EmptyString => True | String c _ => p c = false end ->
  span p (a ++ b) = (a, b).
Proof.
  intros Ha Hb. induction a as [|c a IH]; cbn in *.
  - destruct b; cbn; [reflexivity | now rewrite Hb].
  - apply andb_true_iff in Ha as [Hc Ha]. now rewrite Hc, (IH Ha).
Qed.

Lemma is_empty_false s : is_empty s = false <-> s <> "".
Proof. destruct s; cbn; split; congruence. Qed.

Ltac class_cases c :=
  destruct c as [[|] [|] [|] [|] [|] [|] [|] [|]]; vm_compute; congruence.

Lemma space_not_digit c : is_space c = true -> is_digit c = false.
Proof. class_cases c. Qed.

Lemma space_not_word c : is_space c = true -> is_word c = false.
Proof. class_cases c. Qed.

Lemma word_not_space c : is_word c = true -> is_space c = false.
Proof. class_cases c. Qed.

Lemma digit_not_space c : is_digit c = true -> is_space c = false.
Proof. class_cases c. Qed.

(** What stops a run of class [p]: the first code unit of a non-empty run of
    a class [q] disjoint from [p]. *)
Lemma stops_at p q (s rest : string) :
  (forall c, q c = true -> p c = false) ->
  all_in q s = true -> s <> "" ->
  match s ++ rest with EmptyString => True | String c _ => p c = false end.
Proof.
  intros D Hs Hn. destruct s as [|c s]; [congruence|]. cbn in *.
  apply andb_true_iff in Hs as [Hc _]. auto.
Qed.

Theorem match_date_Matches filename d m y :
  match_date filename = Some (d, m, y) <-> Matches filename d m y.
Proof.
  unfold match_date, Matches. split.
  - destruct (span is_digit filename) as [d' r1] eqn:E1.
    destruct (is_empty d') eqn:N1; [discriminate|].
    destruct (span is_space r1) as [w1 r2] eqn:E2.
    destruct (is_empty w1) eqn:N2; [discriminate|].
    destruct (span is_word r2) as [m' r3] eqn:E3.
    destruct (is_empty m') eqn:N3; [discriminate|].
    destruct (span is_space r3) as [w2 r4] eqn:E4.
    destruct (is_empty w2) eqn:N4; [discriminate|].
    destruct (span is_digit r4) as [y' r5] eqn:E5.
    destruct (is_empty y') eqn:N5; [discriminate|].
    destruct (String.eqb_spec r5 ".png") as [->|]; [|discriminate].
    intros [= <- <- <-].
    apply span_spec in E1 as (-> & ? & _), E2 as (-> & ? & _),
      E3 as (-> & ? & _), E4 as (-> & ? & _), E5 as (-> & ? & _).
    apply is_empty_false in N1, N2, N3, N4, N5.
    exists w1, w2. repeat split; assumption.
  - intros (w1 & w2 & -> & Hd & Nd & Hw1 & Nw1 & Hm & Nm & Hw2 & Nw2 & Hy & Ny).
    rewrite (span_unique is_digit d) by
      (try assumption; apply (stops_at is_digit is_space); auto using space_not_digit).
    apply is_empty_false in Nd as ->.
    rewrite (span_unique is_space w1) by
      (try assumption; apply (stops_at is_space is_word); auto using word_not_space).
    apply is_empty_false in Nw1 as ->.
    rewrite (span_unique is_word m) by
      (try assumption; apply (stops_at is_word is_space); auto using space_not_word).
    apply is_empty_false in Nm as ->.
    rewrite (span_unique is_space w2) by
      (try assumption; apply (stops_at is_space is_digit); auto using digit_not_space).
    apply is_empty_false in Nw2 as ->.
    rewrite (span_unique is_digit y) by (try assumption; reflexivity).
    apply is_empty_false in Ny as ->.
    reflexivity.
Qed.

(* ===================================================================== *)
(** * The calendar *)
(* ===================================================================== *)

Local Open Scope Z_scope.

Ltac divlia := Z.div_mod_to_equations; lia.

Lemma div_step x c : 0 < c ->
  x / c - (x - 1) / c = if x mod c =? 0 then 1 else 0.
Proof.
  intros Hc.
  destruct (Z.eqb_spec (x mod c) 0) as [E|E].
  - assert (x = c * (x / c)) by (pose proof (Z.div_mod x c); lia).
    assert ((x - 1) / c = x / c - 1); [|lia].
    symmetry. apply Z.div_unique with (r := c - 1); lia.
  - assert ((x - 1) / c = x / c); [|lia].
    symmetry. apply Z.div_unique with (r := x mod c - 1).
    + pose proof (Z.mod_pos_bound x c Hc). lia.
    + pose proof (Z.div_mod x c). lia.
Qed.

Lemma mod_shift x k c : 0 < c -> (x - k * c) mod c = x mod c.
Proof.
  intros. replace (x - k * c) with (x + (- k) * c) by lia. apply Z.mod_add. lia.
Qed.

Lemma DayFromYear_succ y : DayFromYear (y + 1) = DayFromYear y + DaysInYear y.
Proof.
  unfold DayFromYear, DaysInYear.
  replace (y + 1 - 1969) with (y - 1968) by lia.
  replace (y + 1 - 1901) with (y - 1900) by lia.
  replace (y + 1 - 1601) with (y - 1600) by lia.
  pose proof (div_step (y - 1968) 4 ltac:(lia)) as H4.
  pose proof (div_step (y - 1900) 100 ltac:(lia)) as H100.
  pose proof (div_step (y - 1600) 400 ltac:(lia)) as H400.
  replace (y - 1968 - 1) with (y - 1969) in H4 by lia.
  replace (y - 1900 - 1) with (y - 1901) in H100 by lia.
  replace (y - 1600 - 1) with (y - 1601) in H400 by lia.
  replace ((y - 1968) mod 4) with (y mod 4) in H4
    by (rewrite <- (mod_shift y 492 4) by lia; f_equal; lia).
  replace ((y - 1900) mod 100) with (y mod 100) in H100
    by (rewrite <- (mod_shift y 19 100) by lia; f_equal; lia).
  replace ((y - 1600) mod 400) with (y mod 400) in H400
    by (rewrite <- (mod_shift y 4 400) by lia; f_equal; lia).
  assert (y mod 400 = 0 -> y mod 100 = 0).
  { intros E. apply Z.mod_divide in E; [|lia]. apply Z.mod_divide; [lia|].
    apply Z.divide_trans with 400; [exists 4; reflexivity | exact E]. }
  assert (y mod 100 = 0 -> y mod 4 = 0).
  { intros E. apply Z.mod_divide in E; [|lia]. apply Z.mod_divide; [lia|].
    apply Z.divide_trans with 100; [exists 25; reflexivity | exact E]. }
  revert H4 H100 H400.
  destruct (Z.eqb_spec (y mod 4) 0); cbn [negb];
  destruct (Z.eqb_spec (y mod 100) 0); cbn [negb];
  destruct (Z.eqb_spec (y mod 400) 0); cbn [negb]; lia.
Qed.

Lemma DaysInYear_bounds y : 365 <= DaysInYear y <= 366.
Proof.
  unfold DaysInYear.
  destruct (y mod 4 =? 0), (y mod 100 =? 0), (y mod 400 =? 0); simpl; lia.
Qed.

Lemma DayFromYear_mono y z : y <= z -> DayFromYear y <= DayFromYear z.
Proof.
  intros H. replace z with (y + Z.of_nat (Z.to_nat (z - y))) by lia.
  induction (Z.to_nat (z - y)) as [|n IH].
  - replace (y + Z.of_nat 0) with y by lia. lia.
  - replace (y + Z.of_nat (S n)) with (y + Z.of_nat n + 1) by lia.
    rewrite DayFromYear_succ. pose proof (DaysInYear_bounds (y + Z.of_nat n)). lia.
Qed.

Lemma DayFromYear_estimate y :
  146097 * (y - 1970) - 506 <= 400 * DayFromYear y <= 146097 * (y - 1970) + 589.
Proof.
  unfold DayFromYear.
  pose proof (Z.div_mod (y - 1969) 4 ltac:(lia)).
  pose proof (Z.mod_pos_bound (y - 1969) 4 ltac:(lia)).
  pose proof (Z.div_mod (y - 1901) 100 ltac:(lia)).
  pose proof (Z.mod_pos_bound (y - 1901) 100 ltac:(lia)).
  pose proof (Z.div_mod (y - 1601) 400 ltac:(lia)).
  pose proof (Z.mod_pos_bound (y - 1601) 400 ltac:(lia)).
  lia.
Qed.

Lemma year_of_day_spec d :
  DayFromYear (year_of_day d) <= d < DayFromYear (year_of_day d + 1).
Proof.
  unfold year_of_day.
  set (y := 1970 + 400 * d / 146097).
  assert (Hy : 146097 * (y - 1970) <= 400 * d < 146097 * (y - 1970) + 146097).
  { subst y. pose proof (Z.div_mod (400 * d) 146097 ltac:(lia)).
    pose proof (Z.mod_pos_bound (400 * d) 146097 ltac:(lia)). lia. }
  clearbody y.
  pose proof (DayFromYear_estimate (y - 1)).
  pose proof (DayFromYear_estimate (y + 2)).
  destruct (Z.ltb_spec d (DayFromYear y)).
  - replace (y - 1 + 1) with y by lia. lia.
  - destruct (Z.leb_spec (DayFromYear (y + 1)) d).
    + replace (y + 1 + 1) with (y + 2) by lia. lia.
    + lia.
Qed.

Lemma year_of_day_unique d y :
  DayFromYear y <= d < DayFromYear (y + 1) -> year_of_day d = y.
Proof.
  intros H. pose proof (year_of_day_spec d) as S.
  destruct (Z.lt_trichotomy (year_of_day d) y) as [L|[E|G]]; [|exact E|].
  - pose proof (DayFromYear_mono (year_of_day d + 1) y ltac:(lia)). lia.
  - pose proof (DayFromYear_mono (y + 1) (year_of_day d) ltac:(lia)). lia.
Qed.

Lemma isLeapYear_days y : DaysInYear y = if isLeapYear y then 366 else 365.
Proof.
  unfold isLeapYear. pose proof (DaysInYear_bounds y).
  destruct (Z.eqb_spec (DaysInYear y) 366); lia.
Qed.

Lemma Day_MakeDate day : Day (MakeDate day 0) = day.
Proof. unfold Day, MakeDate. rewrite Z.add_0_r. apply Z.div_mul. discriminate. Qed.

Lemma TimeWithinDay_MakeDate day : TimeWithinDay (MakeDate day 0) = 0.
Proof. unfold TimeWithinDay, MakeDate. rewrite Z.add_0_r. apply Z.mod_mul. discriminate. Qed.

Lemma MakeDay_in_range year m : 0 <= m <= 11 ->
  forall date, MakeDay year m date
               = DayFromYear year + month_start (isLeapYear year) m + date - 1.
Proof.
  intros Hm date. unfold MakeDay.
  rewrite (Z.div_small m 12) by lia. rewrite (Z.mod_small m 12) by lia.
  rewrite Z.add_0_r. reflexivity.
Qed.

Ltac month_cases m :=
  assert (m = 0 \/ m = 1 \/ m = 2 \/ m = 3 \/ m = 4 \/ m = 5 \/ m = 6
          \/ m = 7 \/ m = 8 \/ m = 9 \/ m = 10 \/ m = 11) as Hcases by lia;
  repeat (destruct Hcases as [Hcases|Hcases]); subst m.

Ltac eval_month_start :=
  repeat match goal with
         | |- context [month_start ?b ?k] =>
             let v := eval vm_compute in (month_start b k) in
             change (month_start b k) with v
         | H : context [month_start ?b ?k] |- _ =>
             let v := eval vm_compute in (month_start b k) in
             change (month_start b k) with v in H
         end.

Ltac split_ltb :=
  repeat match goal with
         | |- context [?a <? ?b] => destruct (Z.ltb_spec a b); try lia
         end.

(** A calendar date read back from the local time [new Date] builds. *)
Lemma date_roundtrip year m date :
  0 <= m <= 11 -> 1 <= date <= DaysInMonth year m ->
  let t := MakeDate (MakeDay year m date) 0 in
  YearFromTime t = year /\ MonthFromTime t = m /\ DateFromTime t = date
  /\ TimeWithinDay t = 0.
Proof.
  intros Hm Hd t. unfold DaysInMonth in Hd.
  assert (HY : YearFromTime t = year).
  { unfold YearFromTime, t. rewrite Day_MakeDate, MakeDay_in_range by exact Hm.
    apply year_of_day_unique. rewrite DayFromYear_succ, isLeapYear_days.
    destruct (isLeapYear year); month_cases m; eval_month_start; lia. }
  assert (HW : DayWithinYear t = month_start (isLeapYear year) m + date - 1).
  { unfold DayWithinYear. rewrite HY. unfold t.
    rewrite Day_MakeDate, MakeDay_in_range by exact Hm. lia. }
  assert (HM : MonthFromTime t = m).
  { unfold MonthFromTime, InLeapYear. rewrite HW, HY.
    destruct (isLeapYear year); month_cases m; eval_month_start;
      cbv beta iota zeta; split_ltb. }
  repeat split; try assumption.
  - unfold DateFromTime, InLeapYear. rewrite HW, HY, HM. lia.
  - apply TimeWithinDay_MakeDate.
Qed.

Local Close Scope Z_scope.

(* ===================================================================== *)
(** * Sorting and arrays *)
(* ===================================================================== *)

Local Close Scope string_scope.
Local Open Scope Z_scope.

Section SortFacts.
Context {A : Type} (compareFn : A -> A -> jsnum).

Lemma insert_perm x l : Permutation (insert compareFn x l) (x :: l).
Proof.
  induction l as [|y l IH]; cbn; [reflexivity|].
  destruct (goes_after (compareFn x y)); [|reflexivity].
  rewrite IH. apply perm_swap.
Qed.

Lemma Array_sort_perm l : Permutation (Array_sort compareFn l) l.
Proof.
  induction l as [|x l IH]; cbn; [reflexivity|].
  rewrite insert_perm. now constructor.
Qed.

Lemma Array_sort_In l x : In x (Array_sort compareFn l) <-> In x l.
Proof.
  split; apply Permutation_in;
    [apply Array_sort_perm | symmetry; apply Array_sort_perm].
Qed.

Lemma Array_sort_NoDup l : NoDup l -> NoDup (Array_sort compareFn l).
Proof. apply Permutation_NoDup. symmetry. apply Array_sort_perm. Qed.

Lemma Array_sort_length l : List.length (Array_sort compareFn l) = List.length l.
Proof. apply Permutation_length, Array_sort_perm. Qed.

(** Stability: elements the comparator never puts one after the other
    keep their order. *)
Section Stable.
Variable P : A -> bool.
Hypothesis tied : forall a b,
  P a = true -> P b = true -> goes_after (compareFn a b) = false.

Lemma insert_stable x l :
  filter P (insert compareFn x l) = filter P (x :: l).
Proof.
  induction l as [|y l IH]; [reflexivity|].
  cbn [insert]. destruct (goes_after (compareFn x y)) eqn:G; [|reflexivity].
  cbn [filter] in *. rewrite IH.
  destruct (P x) eqn:Px, (P y) eqn:Py; try reflexivity.
  rewrite (tied x y Px Py) in G. discriminate.
Qed.

Lemma Array_sort_stable l :
  filter P (Array_sort compareFn l) = filter P l.
Proof.
  induction l as [|x l IH]; [reflexivity|].
  cbn [Array_sort]. rewrite insert_stable. cbn [filter]. now rewrite IH.
Qed.
End Stable.

(** Sortedness, for a comparator that subtracts integer keys. *)
Section Sorted.
Variable key : A -> jsnum.
Hypothesis compareFn_key : forall a b, compareFn a b = num_sub (key a) (key b).

Let le (a b : A) : Prop := not_after (key a) (key b).

Lemma insert_sorted x l :
  key x <> NaN -> Forall (fun a => key a <> NaN) l ->
  StronglySorted le l -> StronglySorted le (insert compareFn x l).
Proof.
  intros Hx Hl Hs. induction Hs as [|y l Hs IH Hy]; cbn [insert].
  - repeat constructor.
  - inversion Hl as [|? ? Ky Kl]; subst.
    rewrite compareFn_key.
    destruct (key x) as [kx|] eqn:Ex; [|congruence].
    destruct (key y) as [ky|] eqn:Ey; [|congruence].
    cbn [num_sub goes_after]. destruct (Z.ltb_spec 0 (kx - ky)).
    + constructor; [auto|].
      eapply Permutation_Forall; [symmetry; apply insert_perm|].
      constructor; [|exact Hy].
      unfold le, not_after. rewrite Ey, Ex. lia.
    + constructor; [constructor; assumption|].
      constructor.
      * unfold le, not_after. rewrite Ex, Ey. lia.
      * eapply Forall_impl; [|exact Hy]. cbn. intros a.
        unfold le, not_after. rewrite Ex, Ey.
        destruct (key a); [lia | trivial].
Qed.

Lemma Array_sort_sorted l :
  Forall (fun a => key a <> NaN) l -> StronglySorted le (Array_sort compareFn l).
Proof.
  induction 1 as [|x l Hx Hl IH]; cbn [Array_sort]; [constructor|].
  apply insert_sorted; auto.
  eapply Permutation_Forall; [symmetry; apply Array_sort_perm | exact Hl].
Qed.
End Sorted.
End SortFacts.



(** ** Membership in arrays of strings *)

Lemma Array_includes_In l x : Array_includes l x = true <-> In x l.
Proof.
  unfold Array_includes. rewrite existsb_exists. split.
  - intros [y [Hy E]]. apply String.eqb_eq in E. now subst.
  - intros H. exists x. split; [exact H | apply String.eqb_refl].
Qed.

Lemma Array_includes_false l x : Array_includes l x = false <-> ~ In x l.
Proof.
  rewrite <- Array_includes_In. destruct (Array_includes l x); split; congruence.
Qed.

Lemma unsent_In sent files f :
  In f (unsent sent files) <-> In f files /\ ~ In f sent.
Proof.
  unfold unsent. rewrite filter_In, negb_true_iff, Array_includes_false. tauto.
Qed.

Lemma unsent_NoDup sent files : NoDup files -> NoDup (unsent sent files).
Proof. apply NoDup_filter. Qed.

Lemma distinct_NoDup l : distinct l = true <-> NoDup l.
Proof.
  induction l as [|x l IH]; cbn.
  - split; [constructor | reflexivity].
  - rewrite andb_true_iff, negb_true_iff, Array_includes_false, IH.
    split; [intros []; now constructor | inversion 1; auto].
Qed.

(** Skipping [sent] leaves as many files as [sent] does not name. *)
Lemma unsent_length sent files :
  NoDup sent -> NoDup files -> incl sent files ->
  (List.length (unsent sent files) + List.length sent = List.length files)%nat.
Proof.
  intros Hs Hf Hi.
  assert (P : Permutation files (unsent sent files ++ sent)).
  { apply NoDup_Permutation; [exact Hf| |].
    - apply NoDup_app; [apply unsent_NoDup, Hf | exact Hs |].
      intros x Hx. apply unsent_In in Hx. tauto.
    - intros x. rewrite in_app_iff, unsent_In. split.
      + intros Hx. destruct (in_dec string_dec x sent); tauto.
      + intros [[Hx _]|Hx]; auto. }
  apply Permutation_length in P. rewrite length_app in P. lia.
Qed.

(** The sorted, stable arrangement is unique: two lists in ascending order
    of an integer key that agree on every class of equal keys are equal.
    So any sort that ECMAScript allows, given a consistent comparator on
    such keys, returns what [Array_sort] returns. *)
Section Unique.
Context {A : Type} (key : A -> Z).

Let class (t : Z) (a : A) : bool := key a =? t.

Let le (a b : A) : Prop := key a <= key b.

Lemma class_member t a l : In a (filter (class t) l) <-> In a l /\ key a = t.
Proof. unfold class. rewrite filter_In, Z.eqb_eq. tauto. Qed.

Lemma sorted_stable_unique s1 : forall s2,
  StronglySorted le s1 -> StronglySorted le s2 ->
  (forall t, filter (class t) s1 = filter (class t) s2) ->
  s1 = s2.
Proof.
  induction s1 as [|x s1 IH]; intros s2 S1 S2 E.
  - destruct s2 as [|y s2]; [reflexivity|].
    specialize (E (key y)). cbn [filter] in E. unfold class in E.
    rewrite Z.eqb_refl in E. discriminate.
  - destruct s2 as [|y s2].
    { specialize (E (key x)). cbn [filter] in E. unfold class in E.
      rewrite Z.eqb_refl in E. discriminate. }
    inversion S1 as [|? ? S1' L1]; subst. inversion S2 as [|? ? S2' L2]; subst.
    rewrite Forall_forall in L1, L2.
    assert (K : key x = key y).
    { destruct (Z.eq_dec (key x) (key y)) as [|N]; [assumption|].
      assert (Hy : In y (x :: s1)).
      { apply (class_member (key y)). rewrite E. apply class_member.
        split; [now left | reflexivity]. }
      assert (Hx : In x (y :: s2)).
      { apply (class_member (key x)). rewrite <- E. apply class_member.
        split; [now left | reflexivity]. }
      destruct Hy as [->|Hy]; [congruence|]. destruct Hx as [->|Hx]; [congruence|].
      apply L1 in Hy. apply L2 in Hx. unfold le in *. lia. }
    assert (x = y).
    { specialize (E (key x)). cbn [filter] in E. unfold class in E.
      rewrite <- K, Z.eqb_refl in E. congruence. }
    subst y. f_equal. apply IH; try assumption.
    intros t. specialize (E t). cbn [filter] in E.
    destruct (class t x); congruence.
Qed.
End Unique.

Lemma StronglySorted_weaken {A} (R R' : A -> A -> Prop) l :
  (forall a b, In a l -> In b l -> R a b -> R' a b) ->
  StronglySorted R l -> StronglySorted R' l.
Proof.
  intros H S. induction S as [|x l S IH F]; constructor.
  - apply IH. intros a b Ha Hb. apply H; now right.
  - rewrite Forall_forall in F |- *. intros b Hb.
    apply H; [now left | now right | auto].
Qed.

Lemma same_date_tied tz t a b :
  same_date tz t a = true -> same_date tz t b = true ->
  goes_after (by_date tz a b) = false.
Proof.
  unfold same_date, by_date.
  destruct (extractDateFromPath tz a) as [x|]; [|discriminate].
  destruct (extractDateFromPath tz b) as [y|]; [|discriminate].
  intros Hx Hy. apply Z.eqb_eq in Hx, Hy. subst. cbn.
  now rewrite Z.sub_diag.
Qed.

(** What [files.sort] returns, when every date is a number: the one
    arrangement of the files in ascending order of date in which files of
    the same date keep their order. *)
Lemma files_sort_canonical LocalTZA (files sorted : list string) :
  let date f := match extractDateFromPath LocalTZA f with Num z => z | NaN => 0 end in
  Forall (fun f => extractDateFromPath LocalTZA f <> NaN) files ->
  StronglySorted (fun a b => date a <= date b) sorted ->
  (forall t, filter (fun f => date f =? t) sorted
             = filter (fun f => date f =? t) files) ->
  sorted = Array_sort (by_date LocalTZA) files.
Proof.
  intros date N S E.
  assert (C : forall t l, Forall (fun f => extractDateFromPath LocalTZA f <> NaN) l ->
                          filter (same_date LocalTZA t) l
                          = filter (fun f => date f =? t) l).
  { intros t l Hl. apply filter_ext_in. intros f Hf.
    rewrite Forall_forall in Hl. specialize (Hl f Hf).
    unfold same_date, date. now destruct (extractDateFromPath LocalTZA f). }
  assert (N' : Forall (fun f => extractDateFromPath LocalTZA f <> NaN)
                 (Array_sort (by_date LocalTZA) files)).
  { eapply Permutation_Forall; [symmetry; apply Array_sort_perm | exact N]. }
  apply (sorted_stable_unique date); [exact S | |].
  - apply (StronglySorted_weaken
             (fun a b => not_after (extractDateFromPath LocalTZA a)
                                   (extractDateFromPath LocalTZA b))).
    + rewrite Forall_forall in N'. intros a b Ha Hb.
      specialize (N' a Ha) as Na. specialize (N' b Hb) as Nb. unfold date, not_after.
      destruct (extractDateFromPath LocalTZA a), (extractDateFromPath LocalTZA b);
        congruence.
    + apply (Array_sort_sorted (by_date LocalTZA) (extractDateFromPath LocalTZA));
        [reflexivity | exact N].
  - intros t. rewrite E, <- !C by assumption.
    symmetry. apply Array_sort_stable, same_date_tied.
Qed.

Local Close Scope Z_scope.
Local Open Scope string_scope.

(* ===================================================================== *)
(** * The scanner *)
(* ===================================================================== *)

Lemma entry_induction (P : entry -> Prop) :
  (forall n, P (FileEntry n)) ->
  (forall n items, Forall P items -> P (DirEntry n items)) ->
  (forall n, P (OtherEntry n)) ->
  forall e, P e.
Proof.
  intros HF HD HO. fix IH 1. intros [n|n items|n]; [apply HF| |apply HO].
  apply HD. induction items as [|i items IHi]; constructor; [apply IH | exact IHi].
Qed.

Lemma append_cancel (a x y : string) : a ++ x = a ++ y -> x = y.
Proof. induction a; cbn; [auto | intros [= H]; auto]. Qed.

Lemma name_determined n1 n2 r1 r2 :
  no_slash n1 = true -> no_slash n2 = true -> tail r1 -> tail r2 ->
  n1 ++ r1 = n2 ++ r2 -> n1 = n2.
Proof.
  revert n2. induction n1 as [|c n1 IH]; intros [|c2 n2]; cbn;
    intros H1 H2 T1 T2 E.
  - reflexivity.
  - apply andb_true_iff in H2 as [H2 _]. apply negb_true_iff in H2.
    destruct T1 as [->|[r' ->]]; [discriminate|].
    injection E as <- _. now rewrite Ascii.eqb_refl in H2.
  - apply andb_true_iff in H1 as [H1 _]. apply negb_true_iff in H1.
    destruct T2 as [->|[r' ->]]; [discriminate|].
    injection E as -> _. now rewrite Ascii.eqb_refl in H1.
  - apply andb_true_iff in H1 as [_ H1], H2 as [_ H2].
    injection E as -> E. f_equal. eauto.
Qed.

(** Every path found below an entry starts with the entry's own path. *)
Lemma scan_entry_path e : forall dir p,
  In p (scan_entry dir e) ->
  exists r, p = join dir (entry_name e ++ r) /\ tail r.
Proof.
  induction e as [n|n items IH|n] using entry_induction; intros dir p; cbn.
  - destruct (endsWith n ".png" && negb (startsWith n ".")); [|contradiction].
    intros [<-|[]]. exists "". rewrite append_nil_r. split; [reflexivity | now left].
  - rewrite in_flat_map. intros (e & He & Hp).
    rewrite Forall_forall in IH. destruct (IH e He _ _ Hp) as (r & -> & _).
    exists (String slash (entry_name e ++ r)). split; [|right; eauto].
    unfold join. now rewrite !append_assoc.
  - contradiction.
Qed.

Lemma scan_entry_name dir e1 e2 p :
  wf_entry e1 = true -> wf_entry e2 = true ->
  In p (scan_entry dir e1) -> In p (scan_entry dir e2) ->
  entry_name e1 = entry_name e2.
Proof.
  intros W1 W2 H1 H2.
  apply scan_entry_path in H1 as (r1 & -> & T1), H2 as (r2 & E & T2).
  unfold join in E. apply append_cancel in E. cbn in E. injection E as E.
  assert (N1 : no_slash (entry_name e1) = true)
    by (destruct e1; cbn in W1 |- *; now apply andb_true_iff in W1 as [? _]).
  assert (N2 : no_slash (entry_name e2) = true)
    by (destruct e2; cbn in W2 |- *; now apply andb_true_iff in W2 as [? _]).
  eauto using name_determined.
Qed.

Lemma scan_items_NoDup dir items :
  wf_items items = true ->
  Forall (fun e => forall d, NoDup (scan_entry d e)) items ->
  NoDup (flat_map (scan_entry dir) items).
Proof.
  unfold wf_items. induction items as [|e items IH]; cbn [flat_map];
    intros W HN; [constructor|].
  cbn in W. rewrite !andb_true_iff, negb_true_iff, Array_includes_false in W.
  destruct W as [[Hfresh Hd] [We Wi]].
  inversion HN as [|? ? Ne Ni]; subst.
  apply NoDup_app.
  - apply Ne.
  - apply IH; [now rewrite Hd, Wi | exact Ni].
  - intros p Hp Hq. apply in_flat_map in Hq as (e' & He' & Hq).
    apply Hfresh. rewrite (scan_entry_name dir e e' p); auto.
    + now apply in_map.
    + rewrite forallb_forall in Wi. auto.
Qed.

Lemma scan_entry_NoDup e : wf_entry e = true -> forall dir, NoDup (scan_entry dir e).
Proof.
  induction e as [n|n items IH|n] using entry_induction; intros W dir; cbn.
  - destruct (endsWith n ".png" && negb (startsWith n ".")); repeat constructor.
    intros [].
  - cbn in W. apply andb_true_iff in W as [_ W].
    apply scan_items_NoDup; [exact W|].
    apply andb_true_iff in W as [_ W]. rewrite forallb_forall in W.
    rewrite Forall_forall in IH |- *. auto.
  - constructor.
Qed.

(** No path is discovered twice. *)
Lemma getAllPngFiles_NoDup w dir :
  well_formed w dir -> NoDup (getAllPngFiles w dir).
Proof.
  unfold well_formed, getAllPngFiles.
  destruct (archives w dir) as [items|]; [|constructor].
  intros W. apply scan_items_NoDup; [exact W|].
  apply andb_true_iff in W as [_ W]. rewrite forallb_forall in W.
  apply Forall_forall. auto using scan_entry_NoDup.
Qed.

Lemma sortedFiles_NoDup w tz dir :
  well_formed w dir -> NoDup (sortedFiles w tz dir).
Proof. intros W. apply Array_sort_NoDup, getAllPngFiles_NoDup, W. Qed.

(* ===================================================================== *)
(** * Traces, deliveries and the loop *)
(* ===================================================================== *)

(** ** Reading a trace *)

Ltac by_trace_induction a :=
  induction a as [|[] a IH]; cbn; rewrite ?IH; try reflexivity.

Lemma calls_app a b : calls (a ++ b) = (calls a ++ calls b)%list.
Proof. by_trace_induction a. Qed.

Lemma requests_app a b : requests (a ++ b) = (requests a ++ requests b)%list.
Proof. by_trace_induction a. Qed.

Lemma sleeps_app a b : sleeps (a ++ b) = (sleeps a ++ sleeps b)%list.
Proof. by_trace_induction a. Qed.


Lemma successes_app a b : successes (a ++ b) = (successes a + successes b)%nat.
Proof. induction a as [|[| | | |[]] a IH]; cbn; rewrite ?IH; reflexivity. Qed.

Lemma failures_app a b : failures (a ++ b) = (failures a + failures b)%nat.
Proof. induction a as [|[| | | |[]] a IH]; cbn; rewrite ?IH; reflexivity. Qed.

Lemma sendToDiscord_cases w p webhookUrl s :
  sendToDiscord w p webhookUrl s =
  if falsy webhookUrl then
    (Throw webhook_required, with_trace s (trace s ++ [Call p]))
  else
    match stat w p with
    | None =>
        (Throw ("Image file not found: " ++ p), with_trace s (trace s ++ [Call p]))
    | Some Directory =>
        (Throw "EISDIR: illegal operation on a directory, read",
         with_trace s (trace s ++ [Call p]))
    | Some RegularFile =>
        match endpoint w (requests (trace s)) (post p webhookUrl) with
        | FetchFailed e =>
            (Throw e, with_trace s (trace s ++ [Call p; Fetch (post p webhookUrl)]))
        | Response status body =>
            if ok status then
              (Return true,
               with_trace s (trace s ++ [Call p; Fetch (post p webhookUrl);
                                         Console (SentToDiscord (basename p))]))
            else
              (Throw (api_error status body),
               with_trace s (trace s ++ [Call p; Fetch (post p webhookUrl)]))
        end
    end.
Proof.
  unfold sendToDiscord, bind, emit, modify, throw, existsSync, readFileSync.
  destruct (falsy webhookUrl); [reflexivity|].
  destruct (stat w p) as [[]|]; cbn; try reflexivity.
  unfold fetch, post. cbn. rewrite requests_app. cbn. rewrite app_nil_r.
  destruct (endpoint w (requests (trace s)) _) as [status body|e];
    unfold with_trace; cbn; rewrite <- ?app_assoc; [|reflexivity].
  destruct (ok status); cbn; rewrite <- ?app_assoc; reflexivity.
Qed.

(** [sendToDiscord] changes nothing but the trace. *)
Lemma sendToDiscord_frame w p webhookUrl s r s1 :
  sendToDiscord w p webhookUrl s = (r, s1) ->
  sentFiles s1 = sentFiles s /\ successCount s1 = successCount s
  /\ failCount s1 = failCount s /\ disk s1 = disk s.
Proof.
  rewrite sendToDiscord_cases.
  destruct (falsy webhookUrl); [intros [= <- <-]; auto|].
  destruct (stat w p) as [[]|]; try (intros [= <- <-]; now auto).
  destruct (endpoint w _ _) as [status body|e]; [|intros [= <- <-]; now auto].
  destruct (ok status); intros [= <- <-]; auto.
Qed.

(** What [sendToDiscord] adds to the trace: the call, at most one request,
    and the success line exactly when it returns. *)
Lemma sendToDiscord_trace w p webhookUrl s r s1 :
  sendToDiscord w p webhookUrl s = (r, s1) ->
  exists evs,
    trace s1 = (trace s ++ Call p :: evs)%list
    /\ calls evs = [] /\ sleeps evs = []
    /\ failures evs = O
    /\ successes evs = match r with Return _ => 1%nat | Throw _ => O end.
Proof.
  rewrite sendToDiscord_cases.
  destruct (falsy webhookUrl); [intros [= <- <-]; exists []; now auto|].
  destruct (stat w p) as [[]|]; try (intros [= <- <-]; exists []; now auto).
  destruct (endpoint w _ _) as [status body|e];
    [|intros [= <- <-]; eexists [_]; now auto].
  destruct (ok status); intros [= <- <-]; [eexists [_; _] | eexists [_]]; now auto.
Qed.

Lemma deliver_cases w webhookUrl delayMs newFiles i file s :
  deliver w webhookUrl delayMs newFiles i file s =
  match sendToDiscord w file webhookUrl s with
  | (Return _, s1) => (Return tt, after_success delayMs newFiles i file s1)
  | (Throw e, s1) => (Return tt, after_failure file e s1)
  end.
Proof.
  unfold deliver, try_catch, bind at 1.
  destruct (sendToDiscord w file webhookUrl s) as [[b|e] s1].
  - unfold after_success, bind, get, set_sentFiles, set_counts, writeSentLog,
      console, sleep, emit, modify, ret, with_trace. cbn.
    destruct (Z.of_nat i <? Z.of_nat (List.length newFiles) - 1)%Z; cbn;
      rewrite <- ?app_assoc; reflexivity.
  - unfold after_failure, bind, get, set_counts, console, sleep, emit, modify,
      ret, with_trace. cbn.
    destruct (rate_limited e); cbn; rewrite <- ?app_assoc; reflexivity.
Qed.

(** A turn of the loop never throws. *)
Lemma deliver_returns w webhookUrl delayMs newFiles i file s :
  fst (deliver w webhookUrl delayMs newFiles i file s) = Return tt.
Proof.
  rewrite deliver_cases.
  now destruct (sendToDiscord w file webhookUrl s) as [[b|e] s1].
Qed.

(** ** The loop *)

Lemma for_each_app {A} (body : nat -> A -> M unit) l1 l2 i s :
  for_each body i (l1 ++ l2) s =
  match for_each body i l1 s with
  | (Return _, s1) => for_each body (i + List.length l1) l2 s1
  | (Throw e, s1) => (Throw e, s1)
  end.
Proof.
  revert i s. induction l1 as [|x l1 IH]; intros i s; cbn.
  - now rewrite Nat.add_0_r.
  - unfold bind. destruct (body i x s) as [[[]|e] s1]; [|reflexivity].
    rewrite IH. now rewrite Nat.add_succ_r.
Qed.

Lemma progress_refl s : progress s [] [] s.
Proof.
  constructor; cbn; rewrite ?app_nil_r; auto using incl_refl; try lia.
  exists []. now rewrite app_nil_r.
Qed.

Ltac fields :=
  cbn [after_success after_failure with_trace
       sentFiles successCount failCount disk trace].

Ltac read_trace :=
  rewrite ?calls_app, ?successes_app, ?failures_app;
  cbn [calls successes failures];
  rewrite ?calls_app, ?successes_app, ?failures_app.

Lemma step_success w webhookUrl delayMs newFiles i file s b s1 :
  sendToDiscord w file webhookUrl s = (Return b, s1) ->
  progress s [file] [file] (after_success delayMs newFiles i file s1).
Proof.
  intros E.
  destruct (sendToDiscord_frame _ _ _ _ _ _ E) as (F1 & F2 & F3 & F4).
  destruct (sendToDiscord_trace _ _ _ _ _ _ E) as (evs & T & C & _ & Fl & Su).
  constructor; fields; rewrite ?F1, ?F2, ?F3, ?F4, ?T.
  - reflexivity.
  - apply incl_refl.
  - trivial.
  - cbn. lia.
  - cbn. lia.
  - reflexivity.
  - read_trace. rewrite C. destruct (_ <? _)%Z; cbn; now rewrite app_nil_r.
  - read_trace. rewrite Su. destruct (_ <? _)%Z; cbn; lia.
  - read_trace. rewrite Fl. destruct (_ <? _)%Z; cbn; lia.
  - rewrite <- app_assoc. eauto.
Qed.

Lemma step_failure w webhookUrl file s e s1 :
  sendToDiscord w file webhookUrl s = (Throw e, s1) ->
  progress s [file] [] (after_failure file e s1).
Proof.
  intros E.
  destruct (sendToDiscord_frame _ _ _ _ _ _ E) as (F1 & F2 & F3 & F4).
  destruct (sendToDiscord_trace _ _ _ _ _ _ E) as (evs & T & C & _ & Fl & Su).
  constructor; fields; rewrite ?F1, ?F2, ?F3, ?F4, ?T.
  - now rewrite app_nil_r.
  - apply incl_nil_l.
  - intros _. constructor.
  - cbn. lia.
  - cbn. lia.
  - reflexivity.
  - read_trace. rewrite C. destruct (rate_limited e); cbn; now rewrite app_nil_r.
  - read_trace. rewrite Su. destruct (rate_limited e); cbn; lia.
  - read_trace. rewrite Fl. destruct (rate_limited e); cbn; lia.
  - rewrite <- app_assoc. eauto.
Qed.

Lemma progress_step w webhookUrl delayMs newFiles i file s s' :
  deliver w webhookUrl delayMs newFiles i file s = (Return tt, s') ->
  exists pushed, progress s [file] pushed s'.
Proof.
  rewrite deliver_cases.
  destruct (sendToDiscord w file webhookUrl s) as [[b|e] s1] eqn:E; intros [= <-].
  - exists [file]. eapply step_success, E.
  - exists []. eapply step_failure, E.
Qed.

Lemma progress_trans s q1 p1 s1 q2 p2 s2 :
  progress s q1 p1 s1 -> progress s1 q2 p2 s2 ->
  progress s (q1 ++ q2) (p1 ++ p2) s2.
Proof.
  intros [A1 B1 C1 D1 E1 F1 G1 H1 I1 [e1 J1]] [A2 B2 C2 D2 E2 F2 G2 H2 I2 [e2 J2]].
  constructor.
  - now rewrite A2, A1, app_assoc.
  - apply incl_app; [apply incl_appl | apply incl_appr]; assumption.
  - intros N. apply NoDup_app_remove_l in N as N2.
    apply NoDup_app_remove_r in N as N1.
    apply NoDup_app; auto.
    intros x X1 X2. apply B1 in X1. apply B2 in X2.
    revert X1 X2. clear - N. induction q1 as [|y q1 IH]; cbn; [tauto|].
    inversion N as [|? ? Ny Nq]; subst. intros [->|X1] X2.
    + apply Ny. apply in_or_app. now right.
    + now apply IH.
  - rewrite D2, D1, length_app. lia.
  - rewrite !length_app. lia.
  - rewrite F2, F1. destruct p2; [rewrite app_nil_r; destruct p1; [reflexivity|] |].
    + now rewrite A2, app_nil_r.
    + now destruct p1.
  - now rewrite G2, G1, app_assoc.
  - rewrite H2, H1, length_app. lia.
  - rewrite !length_app. lia.
  - exists (e1 ++ e2)%list. now rewrite J2, J1, app_assoc.
Qed.

(** The loop runs to its end, whatever the deliveries do. *)
Lemma loop_progress w webhookUrl delayMs newFiles queue : forall i s,
  exists s' pushed,
    for_each (deliver w webhookUrl delayMs newFiles) i queue s = (Return tt, s')
    /\ progress s queue pushed s'.
Proof.
  induction queue as [|file queue IH]; intros i s.
  - exists s, []. split; [reflexivity | apply progress_refl].
  - cbn [for_each]. unfold bind.
    pose proof (deliver_returns w webhookUrl delayMs newFiles i file s) as R.
    destruct (deliver w webhookUrl delayMs newFiles i file s) as [r s1] eqn:E.
    cbn in R. subst r.
    destruct (progress_step _ _ _ _ _ _ _ _ E) as (p1 & P1).
    destruct (IH (S i) s1) as (s' & p2 & E2 & P2).
    exists s', (p1 ++ p2)%list. split; [exact E2|].
    apply (progress_trans s [file] p1 s1 queue p2 s' P1 P2).
Qed.

(** With a webhook that accepts everything, every file of the queue is
    delivered and recorded. *)
Lemma sendToDiscord_accepted w file webhookUrl s :
  falsy webhookUrl = false -> accepts_all w -> stat w file = Some RegularFile ->
  exists s1, sendToDiscord w file webhookUrl s = (Return true, s1).
Proof.
  intros U A R. rewrite sendToDiscord_cases, U, R.
  destruct (A (requests (trace s)) (post file webhookUrl)) as (st & body & -> & ->).
  eauto.
Qed.

Lemma loop_all_delivered w webhookUrl delayMs newFiles queue :
  falsy webhookUrl = false -> accepts_all w ->
  (forall f, In f queue -> stat w f = Some RegularFile) ->
  forall i s, exists s',
    for_each (deliver w webhookUrl delayMs newFiles) i queue s = (Return tt, s')
    /\ progress s queue queue s'.
Proof.
  intros U A. induction queue as [|file queue IH]; intros R i s.
  - exists s. split; [reflexivity | apply progress_refl].
  - cbn [for_each]. unfold bind. rewrite deliver_cases.
    destruct (sendToDiscord_accepted w file webhookUrl s U A) as (s1 & E);
      [apply R; now left|].
    rewrite E.
    destruct (IH (fun f H => R f (or_intror H)) (S i)
                 (after_success delayMs newFiles i file s1)) as (s' & E2 & P2).
    exists s'. split; [exact E2|].
    apply (progress_trans s [file] [file]
             (after_success delayMs newFiles i file s1) queue queue s');
      [|exact P2].
    eapply step_success, E.
Qed.

(** ** The run *)

Lemma prepare_cases w tz dir s :
  prepare w tz dir s =
  (Return (workQueue w tz dir (disk s)),
   prepared (sortedFiles w tz dir) (workQueue w tz dir (disk s)) s).
Proof.
  unfold prepare, loadSentFiles, prepared, workQueue, header, bind, get,
    set_sentFiles, set_counts, console, emit, modify, ret, with_trace.
  cbn. destruct (disk s); cbn; rewrite <- ?app_assoc; reflexivity.
Qed.

Lemma sendAllArchives_cases w tz dir webhookUrl delayMs s :
  let q := workQueue w tz dir (disk s) in
  sendAllArchives w tz dir webhookUrl delayMs s =
  match for_each (deliver w webhookUrl (default_delay delayMs) q) 0 q
          (prepared (sortedFiles w tz dir) q s) with
  | (Return _, s1) => (Return (successCount s1), reported s1)
  | (Throw e, s1) => (Throw e, s1)
  end.
Proof.
  intros q. unfold sendAllArchives, bind at 1. rewrite prepare_cases.
  unfold bind at 1. fold q.
  destruct (for_each _ 0 q _) as [[[]|e] s1]; [|reflexivity].
  unfold reported, summary, bind, get, console, emit, modify, ret, with_trace.
  cbn. rewrite <- ?app_assoc. reflexivity.
Qed.

Lemma interrupted_cases k w tz dir webhookUrl delayMs s :
  let q := workQueue w tz dir (disk s) in
  interrupted k w tz dir webhookUrl delayMs s =
  for_each (deliver w webhookUrl (default_delay delayMs) q) 0 (firstn k q)
    (prepared (sortedFiles w tz dir) q s).
Proof.
  intros q. unfold interrupted, bind. now rewrite prepare_cases.
Qed.

(** A whole run: it returns its success counter, after the loop has gone
    through the work queue. *)
Lemma sendAllArchives_run w tz dir webhookUrl delayMs s :
  let q := workQueue w tz dir (disk s) in
  exists s1 pushed,
    progress (prepared (sortedFiles w tz dir) q s) q pushed s1
    /\ sendAllArchives w tz dir webhookUrl delayMs s
       = (Return (successCount s1), reported s1).
Proof.
  intros q. rewrite sendAllArchives_cases. fold q.
  destruct (loop_progress w webhookUrl (default_delay delayMs) q q 0
              (prepared (sortedFiles w tz dir) q s)) as (s1 & pushed & E & P).
  rewrite E. eauto.
Qed.

(** ** Interrupted runs *)

Lemma firstn_succ {A} (l : list A) k :
  firstn (S k) l
  = (firstn k l ++ match nth_error l k with Some x => [x] | None => [] end)%list.
Proof.
  revert k. induction l as [|x l IH]; intros [|k]; cbn; try reflexivity.
  now rewrite <- IH.
Qed.

Lemma split_at {A} (l : list A) k x :
  nth_error l k = Some x -> l = (firstn k l ++ x :: skipn (S k) l)%list.
Proof.
  revert k. induction l as [|y l IH]; intros [|k]; cbn; try discriminate.
  - now intros [= ->].
  - intros H. f_equal. now apply IH.
Qed.

Lemma firstn_NoDup {A} (l : list A) k : NoDup l -> NoDup (firstn k l).
Proof.
  intros N. rewrite <- (firstn_skipn k l) in N. now apply NoDup_app_remove_r in N.
Qed.

Lemma firstn_length_le {A} (l : list A) k : (List.length (firstn k l) <= k)%nat.
Proof. rewrite length_firstn. lia. Qed.

Lemma header_silent d files q :
  calls (map Console (header d files q)) = []
  /\ requests (map Console (header d files q)) = []
  /\ sleeps (map Console (header d files q)) = []
  /\ successes (map Console (header d files q)) = O
  /\ failures (map Console (header d files q)) = O.
Proof. unfold header. destruct d; cbn; auto. Qed.

(** The state in which a run interrupted after [k] turns leaves things. *)
Lemma interrupted_run k w tz dir webhookUrl delayMs s :
  let q := workQueue w tz dir (disk s) in
  exists sk pushed,
    interrupted k w tz dir webhookUrl delayMs s = (Return tt, sk)
    /\ progress (prepared (sortedFiles w tz dir) q s) (firstn k q) pushed sk.
Proof.
  intros q. rewrite interrupted_cases. fold q. apply loop_progress.
Qed.

(** What is on disk is what is in memory: every delivered file is saved. *)
Lemma progress_recorded files q s queue pushed s' :
  progress (prepared files q s) queue pushed s' ->
  recorded (disk s') = sentFiles s'
  /\ sentFiles s' = (recorded (disk s) ++ pushed)%list.
Proof.
  intros [A _ _ _ _ D _ _ _ _]. cbn [prepared sentFiles disk] in *.
  split; [|exact A]. rewrite D. destruct pushed; [|reflexivity].
  now rewrite A, app_nil_r.
Qed.

Lemma workQueue_NoDup w tz dir d :
  well_formed w dir -> NoDup (workQueue w tz dir d).
Proof. intros W. apply unsent_NoDup, sortedFiles_NoDup, W. Qed.

Lemma workQueue_In w tz dir d f :
  In f (workQueue w tz dir d) <-> In f (getAllPngFiles w dir) /\ ~ In f (recorded d).
Proof.
  unfold workQueue, sortedFiles. now rewrite unsent_In, Array_sort_In.
Qed.

(** The sent set of a run, at any turn, has no path twice. *)
Lemma progress_NoDup w tz dir s queue pushed s' :
  well_formed w dir -> NoDup (recorded (disk s)) ->
  incl queue (workQueue w tz dir (disk s)) -> NoDup queue ->
  progress (prepared (sortedFiles w tz dir) (workQueue w tz dir (disk s)) s)
    queue pushed s' ->
  NoDup (sentFiles s').
Proof.
  intros W N I Nq P.
  destruct (progress_recorded _ _ _ _ _ _ P) as [_ ->].
  apply NoDup_app; [exact N | apply (pushed_once _ _ _ _ P), Nq |].
  intros f Hf Hp. apply (pushed_from_queue _ _ _ _ P), I, workQueue_In in Hp.
  tauto.
Qed.

Lemma unsent_nil sent files :
  (forall f, In f files -> In f sent) -> unsent sent files = [].
Proof.
  intros H. induction files as [|f files IH]; [reflexivity|].
  cbn. rewrite (proj2 (Array_includes_In sent f)) by (apply H; now left).
  cbn. apply IH. intros g Hg. apply H. now right.
Qed.

Lemma firstn_subset {A} (l : list A) k : incl (firstn k l) l.
Proof.
  intros f Hf. rewrite <- (firstn_skipn k l). apply in_or_app. now left.
Qed.

(* ===================================================================== *)
(** * The delivery client *)
(* ===================================================================== *)

Lemma ok_2xx status : ok status = true <-> (200 <= status <= 299)%N.
Proof.
  unfold ok. rewrite andb_true_iff, !N.leb_le. tauto.
Qed.

Lemma snoc_neq {A} (l : list A) x : (l ++ [x])%list <> l.
Proof.
  intros E. apply (f_equal (@List.length A)) in E.
  rewrite length_app in E. cbn in E. lia.
Qed.

Lemma api_error_status status body :
  includes (api_error status body) (decimal status) = true.
Proof. unfold api_error. apply includes_middle. Qed.

Lemma api_error_body status body :
  includes (api_error status body) body = true.
Proof.
  unfold api_error. apply includes_spec.
  exists ("Discord API error (" ++ decimal status ++ "): "), "".
  now rewrite append_nil_r, !append_assoc.
Qed.

Ltac simp_run :=
  cbn [fst snd trace with_trace]; rewrite ?requests_app;
  cbn [requests].

(** C7. [sendToDiscord] throws without calling [fetch] exactly when the
    webhook URL is absent or empty or the image path is not an existing
    regular file; otherwise it makes one request, returns [true] exactly
    when the response status is 2xx, and on any other status throws an error
    whose message holds the status code and the response body. *)
Theorem sendToDiscord_contract w imagePath webhookUrl s :
  let r := fst (sendToDiscord w imagePath webhookUrl s) in
  let s' := snd (sendToDiscord w imagePath webhookUrl s) in
  let answer := endpoint w (requests (trace s)) (post imagePath webhookUrl) in
  ((falsy webhookUrl = true \/ stat w imagePath <> Some RegularFile)
   <-> ((exists e, r = Throw e) /\ requests (trace s') = requests (trace s)))
  /\ (falsy webhookUrl = false -> stat w imagePath = Some RegularFile ->
      requests (trace s') = (requests (trace s) ++ [post imagePath webhookUrl])%list
      /\ (r = Return true
          <-> exists status body,
                answer = Response status body /\ (200 <= status <= 299)%N)
      /\ (forall status body,
            answer = Response status body -> ~ (200 <= status <= 299)%N ->
            r = Throw (api_error status body)
            /\ includes (api_error status body) (decimal status) = true
            /\ includes (api_error status body) body = true)).
Proof.
  cbv zeta. rewrite sendToDiscord_cases.
  destruct (falsy webhookUrl) eqn:U.
  { simp_run. rewrite app_nil_r. split; [|discriminate]. split; [eauto | auto]. }
  destruct (stat w imagePath) as [[]|] eqn:F.
  - destruct (endpoint w (requests (trace s)) (post imagePath webhookUrl))
      as [status body|e] eqn:A.
    + destruct (ok status) eqn:K; simp_run.
      * split.
        { split; [intros [|]; congruence | intros [[e He] _]; discriminate]. }
        intros _ _. split; [reflexivity|]. split.
        { split; [|reflexivity]. intros _. exists status, body.
          now rewrite <- ok_2xx. }
        intros st b [= <- <-] N. now rewrite <- ok_2xx in N.
      * split.
        { split; [intros [|]; congruence|].
          intros [_ E]. now apply snoc_neq in E. }
        intros _ _. split; [reflexivity|]. split.
        { split; [discriminate|]. intros (st & b & [= <- <-] & R).
          apply ok_2xx in R. congruence. }
        intros st b [= <- <-] _.
        repeat split; auto using api_error_status, api_error_body.
    + simp_run. split.
      { split; [intros [|]; congruence|].
        intros [_ E]. now apply snoc_neq in E. }
      intros _ _. split; [reflexivity|]. split.
      { split; [discriminate | intros (st & b & [=] & _)]. }
      intros st b [=].
  - simp_run. rewrite app_nil_r.
    split; [|discriminate]. split; [eauto | intros _; right; discriminate].
  - simp_run. rewrite app_nil_r.
    split; [|discriminate]. split; [eauto | intros _; right; discriminate].
Qed.

Lemma sendToDiscord_contract_witness :
  falsy hook = false /\ stat demo_world "archives/9 December 2025.png" = Some RegularFile
  /\ fst (sendToDiscord demo_world "archives/9 December 2025.png" hook (start Absent))
     = Return true.
Proof.
  split; [reflexivity|]. split; [reflexivity|].
  apply (sendToDiscord_contract demo_world "archives/9 December 2025.png" hook
           (start Absent)); [reflexivity | reflexivity |].
  exists 200%N, "". split; [reflexivity | lia].
Defined.

(* ===================================================================== *)
(** * Rate limits *)
(* ===================================================================== *)

Lemma deliver_after_throw w webhookUrl delayMs newFiles i file s e s1 :
  sendToDiscord w file webhookUrl s = (Throw e, s1) ->
  deliver w webhookUrl delayMs newFiles i file s
  = (Return tt, after_failure file e s1).
Proof. intros E. now rewrite deliver_cases, E. Qed.

Lemma deliver_after_return w webhookUrl delayMs newFiles i file s b s1 :
  sendToDiscord w file webhookUrl s = (Return b, s1) ->
  deliver w webhookUrl delayMs newFiles i file s
  = (Return tt, after_success delayMs newFiles i file s1).
Proof. intros E. now rewrite deliver_cases, E. Qed.

Lemma rate_limited_iff e :
  rate_limited e = true
  <-> includes e "rate limit" = true \/ includes e "429" = true.
Proof. unfold rate_limited. apply orb_true_iff. Qed.

Lemma rate_limited_429 body : rate_limited (api_error 429 body) = true.
Proof.
  apply rate_limited_iff. right. exact (api_error_status 429 body).
Qed.

(** C10. A failed delivery is followed by the 60 second pause exactly when
    the error message contains [rate limit] or [429]; every response of
    status 429 is so classified, and so is a response of status 500 whose
    body contains [429]. *)
Theorem rate_limit_classification :
  (forall w webhookUrl delayMs newFiles i file s e s1,
      sendToDiscord w file webhookUrl s = (Throw e, s1) ->
      let s' := snd (deliver w webhookUrl delayMs newFiles i file s) in
      exists evs,
        trace s' = (trace s1 ++ Console (FailedToSend file e) :: evs)%list
        /\ (In (Sleep cooldownMs) evs
            <-> includes e "rate limit" = true \/ includes e "429" = true)
        /\ (sleeps evs = [] \/ sleeps evs = [60000%Z]))
  /\ (forall w webhookUrl file s body,
         falsy webhookUrl = false -> stat w file = Some RegularFile ->
         endpoint w (requests (trace s)) (post file webhookUrl) = Response 429 body ->
         exists e, fst (sendToDiscord w file webhookUrl s) = Throw e
                   /\ rate_limited e = true)
  /\ (exists w webhookUrl file s status body e,
         endpoint w (requests (trace s)) (post file webhookUrl) = Response status body
         /\ status <> 429%N
         /\ includes body "429" = true
         /\ fst (sendToDiscord w file webhookUrl s) = Throw e
         /\ sleeps (trace (snd (deliver w webhookUrl 2000 [file] 0 file s)))
            = [60000%Z]).
Proof.
  split; [|split].
  - intros w webhookUrl delayMs newFiles i file s e s1 E. cbv zeta.
    rewrite (deliver_after_throw _ _ _ _ _ _ _ _ _ E).
    cbn [snd after_failure trace].
    pose proof (rate_limited_iff e) as R.
    destruct (rate_limited e); eexists; (split; [reflexivity|]); split.
    + split; [intros _; now apply R | intros _; right; now left].
    + now right.
    + split; [intros [] | intros H; apply R in H; discriminate].
    + now left.
  - intros w webhookUrl file s body U F A.
    rewrite sendToDiscord_cases, U, F, A. cbn [ok fst].
    exists (api_error 429 body). split; [reflexivity | apply rate_limited_429].
  - exists (with_endpoint demo_world (always 500 "upstream 429")), hook,
      "archives/9 December 2025.png", (start Absent), 500%N, "upstream 429",
      (api_error 500 "upstream 429").
    repeat split; [discriminate].
Qed.

Lemma rate_limit_classification_witness :
  exists e,
    fst (sendToDiscord january_world "archives/1 January 2024.png" hook
           (start Absent)) = Throw e
    /\ rate_limited e = true.
Proof.
  apply (proj1 (proj2 rate_limit_classification) january_world hook
           "archives/1 January 2024.png" (start Absent)
           "You are being rate limited."); reflexivity.
Defined.





(* ===================================================================== *)
(** * The report of a run *)
(* ===================================================================== *)


(** The scenario of the specification: two captures, an empty tracker, an
    endpoint that always answers 200. *)
Example scenario_two_captures :
  let run := sendAllArchives demo_world utc_zone "archives" hook None (start Absent) in
  fst run = Return 2%nat
  /\ calls (trace (snd run))
     = ["archives/2025/December/9 December 2025.png";
        "archives/2025/December/10 December 2025.png"]
  /\ disk (snd run)
     = Saved ["archives/2025/December/9 December 2025.png";
              "archives/2025/December/10 December 2025.png"]
  /\ printed (trace (snd run))
     = [FoundArchiveFiles 2; AlreadySent 0; NewFilesToSend 2;
        SentToDiscord "9 December 2025.png"; WaitingBeforeNext 2000 1 2;
        SentToDiscord "10 December 2025.png";
        SyncComplete; SentCount 2; FailedCount 0].
Proof. cbv zeta. repeat split; vm_compute; reflexivity. Qed.

(* ===================================================================== *)
(** * Resuming and repeating a run *)
(* ===================================================================== *)

(** C1. A run interrupted after any number of turns leaves on disk the
    paths it delivered (after those it found there); the next run over the
    same archive calls [sendToDiscord] for exactly the discovered files the
    log does not name, each once, and for none that it names: M - N files,
    where N counts the paths recorded. *)
Theorem resume_skips_recorded w tz dir webhookUrl delayMs d0 k :
  well_formed w dir ->
  NoDup (recorded d0) ->
  incl (recorded d0) (getAllPngFiles w dir) ->
  let s1 := snd (interrupted k w tz dir webhookUrl delayMs (start d0)) in
  let s2 := snd (sendAllArchives w tz dir webhookUrl delayMs (restart s1)) in
  let files := sortedFiles w tz dir in
  let log := recorded (disk s1) in
  exists attempted,
    calls (trace s2) = (calls (trace s1) ++ attempted)%list
    /\ attempted = unsent log files
    /\ (forall f, In f attempted -> ~ In f log)
    /\ (forall f, In f files -> ~ In f log -> In f attempted)
    /\ NoDup attempted
    /\ (List.length attempted + List.length log = List.length files)%nat
    /\ (List.length log = List.length (recorded d0) + successCount s1)%nat.
Proof.
  intros W N0 I0. cbv zeta.
  destruct (interrupted_run k w tz dir webhookUrl delayMs (start d0))
    as (s1 & pushed & -> & P1). cbn [snd start disk] in *.
  destruct (sendAllArchives_run w tz dir webhookUrl delayMs (restart s1))
    as (s2 & pushed2 & P2 & ->). cbn [snd restart disk reported with_trace trace] in *.
  set (q1 := workQueue w tz dir d0) in *.
  assert (Nk : NoDup (firstn k q1)) by (apply firstn_NoDup, workQueue_NoDup, W).
  assert (Ik : incl (firstn k q1) q1).
  { intros f Hf. rewrite <- (firstn_skipn k q1). apply in_or_app. now left. }
  destruct (progress_recorded _ _ _ _ _ _ P1) as [L1 S1]. cbn [start disk] in S1.
  assert (N1 : NoDup (sentFiles s1)).
  { apply (progress_NoDup w tz dir (start d0) (firstn k q1) pushed s1); auto. }
  assert (I1 : incl (sentFiles s1) (sortedFiles w tz dir)).
  { rewrite S1. apply incl_app.
    - intros f Hf. apply Array_sort_In. auto.
    - intros f Hf. apply (pushed_from_queue _ _ _ _ P1), Ik in Hf.
      apply unsent_In in Hf. tauto. }
  exists (workQueue w tz dir (disk s1)). repeat split.
  - rewrite calls_app. cbn [summary map calls]. rewrite app_nil_r.
    rewrite (all_called _ _ _ _ P2). cbn [prepared trace restart disk].
    rewrite calls_app. destruct (header_silent (disk s1) (sortedFiles w tz dir)
      (workQueue w tz dir (disk s1))) as [-> _]. now rewrite app_nil_r.
  - intros f Hf. apply unsent_In in Hf. tauto.
  - intros f Hf Hn. apply unsent_In. tauto.
  - apply workQueue_NoDup, W.
  - unfold workQueue. rewrite L1.
    apply unsent_length; auto using sortedFiles_NoDup.
  - rewrite L1, S1, length_app. f_equal.
    pose proof (counted_ok _ _ _ _ P1) as C. cbn in C. lia.
Qed.

Lemma resume_skips_recorded_witness :
  let s1 := snd (interrupted 1 demo_world utc_zone "archives" hook None
                   (start Absent)) in
  well_formed demo_world "archives"
  /\ disk s1 = Saved ["archives/2025/December/9 December 2025.png"]
  /\ calls (trace (snd (sendAllArchives demo_world utc_zone "archives" hook None
                          (restart s1))))
     = (calls (trace s1) ++ ["archives/2025/December/10 December 2025.png"])%list.
Proof.
  cbv zeta. split; [reflexivity|]. split; [reflexivity|].
  destruct (resume_skips_recorded demo_world utc_zone "archives" hook None Absent 1)
    as (attempted & C & -> & _);
    [reflexivity | constructor | intros f [] |].
  rewrite C. reflexivity.
Defined.

(** C2. When the webhook accepts every delivery, a second run right after
    the first calls [sendToDiscord] for no file, sends no request, leaves
    the log as it is, returns 0 and reports 0 new files, 0 sent and
    0 failed. *)
Theorem second_run_sends_nothing w tz dir webhookUrl delayMs d0 :
  falsy webhookUrl = false -> accepts_all w -> readable w dir ->
  let s1 := snd (sendAllArchives w tz dir webhookUrl delayMs (start d0)) in
  let run2 := sendAllArchives w tz dir webhookUrl delayMs (restart s1) in
  fst run2 = Return 0%nat
  /\ calls (trace (snd run2)) = calls (trace s1)
  /\ requests (trace (snd run2)) = requests (trace s1)
  /\ disk (snd run2) = disk s1
  /\ successCount (snd run2) = 0%nat /\ failCount (snd run2) = 0%nat
  /\ exists before,
       trace (snd run2)
       = (trace s1 ++ map Console (before ++ [NewFilesToSend 0; SyncComplete;
                                              SentCount 0; FailedCount 0]))%list.
Proof.
  intros U A R. cbv zeta.
  rewrite (sendAllArchives_cases w tz dir webhookUrl delayMs (start d0)).
  cbv zeta. cbn [start disk].
  set (files := sortedFiles w tz dir). set (q1 := workQueue w tz dir d0).
  destruct (loop_all_delivered w webhookUrl (default_delay delayMs) q1 q1 U A)
    with (i := O) (s := prepared files q1 (start d0)) as (s1 & -> & P1).
  { intros f Hf. apply R. now apply workQueue_In in Hf. }
  cbn [snd].
  destruct (progress_recorded _ _ _ _ _ _ P1) as [L1 S1]. cbn [start disk] in S1.
  assert (Q2 : workQueue w tz dir (disk s1) = []).
  { unfold workQueue. rewrite L1, S1. apply unsent_nil. intros f Hf.
    apply in_or_app.
    destruct (in_dec string_dec f (recorded d0)) as [|Hn]; [now left | right].
    apply unsent_In. auto. }
  rewrite (sendAllArchives_cases w tz dir webhookUrl delayMs (restart (reported s1))).
  cbv zeta. cbn [restart reported with_trace disk]. rewrite Q2. cbn [for_each ret].
  cbn [fst snd restart reported prepared with_trace trace disk successCount
       failCount summary].
  fold files. repeat split.
  - rewrite <- app_assoc, !calls_app.
    destruct (header_silent (disk s1) files []) as (-> & _).
    cbn [summary map calls app]. now rewrite !app_nil_r.
  - rewrite <- app_assoc, !requests_app.
    destruct (header_silent (disk s1) files []) as (_ & -> & _).
    cbn [summary map requests app]. now rewrite !app_nil_r.
  - exists (match disk s1 with Unparsable => [CouldNotParseSentLog] | _ => [] end
            ++ [FoundArchiveFiles (List.length files);
                AlreadySent (List.length (recorded (disk s1)))])%list.
    unfold header. destruct (disk s1); cbn [app map]; rewrite <- !app_assoc;
      reflexivity.
Qed.

Lemma second_run_sends_nothing_witness :
  fst (sendAllArchives demo_world utc_zone "archives" hook None
         (restart (snd (sendAllArchives demo_world utc_zone "archives" hook None
                          (start Absent)))))
  = Return 0%nat.
Proof.
  apply (second_run_sends_nothing demo_world utc_zone "archives" hook None Absent).
  - reflexivity.
  - intros hist r. exists 200%N, "". split; reflexivity.
  - intros f _. reflexivity.
Defined.

(* ===================================================================== *)
(** * Failures and the sent log *)
(* ===================================================================== *)

(** The loop over a queue, cut at the file of index [K]. *)
Lemma loop_around w webhookUrl delayMs newFiles queue K file s :
  nth_error queue K = Some file ->
  exists sK p1 s' p2,
    for_each (deliver w webhookUrl delayMs newFiles) 0 (firstn K queue) s
    = (Return tt, sK)
    /\ progress s (firstn K queue) p1 sK
    /\ for_each (deliver w webhookUrl delayMs newFiles) 0 queue s
       = for_each (deliver w webhookUrl delayMs newFiles)
           (S (List.length (firstn K queue))) (skipn (S K) queue)
           (snd (deliver w webhookUrl delayMs newFiles
                   (List.length (firstn K queue)) file sK))
    /\ for_each (deliver w webhookUrl delayMs newFiles)
         (S (List.length (firstn K queue))) (skipn (S K) queue)
         (snd (deliver w webhookUrl delayMs newFiles
                 (List.length (firstn K queue)) file sK))
       = (Return tt, s')
    /\ progress (snd (deliver w webhookUrl delayMs newFiles
                        (List.length (firstn K queue)) file sK))
         (skipn (S K) queue) p2 s'.
Proof.
  intros HK.
  destruct (loop_progress w webhookUrl delayMs newFiles (firstn K queue) 0 s)
    as (sK & p1 & E1 & P1).
  pose proof (deliver_returns w webhookUrl delayMs newFiles
                (List.length (firstn K queue)) file sK) as R.
  destruct (deliver w webhookUrl delayMs newFiles
              (List.length (firstn K queue)) file sK) as [r sK'] eqn:ED.
  cbn in R. subst r.
  destruct (loop_progress w webhookUrl delayMs newFiles (skipn (S K) queue)
              (S (List.length (firstn K queue))) sK') as (s' & p2 & E2 & P2).
  exists sK, p1, s', p2. rewrite ED. cbn [snd].
  split; [exact E1 | split; [exact P1 | split; [|split; [exact E2 | exact P2]]]].
  rewrite (split_at queue K file HK) at 1.
  rewrite for_each_app, E1. cbn [for_each Nat.add]. unfold bind.
  now rewrite ED.
Qed.

(** C4. If the delivery of the file of index [K] in the work queue throws,
    the run still returns, [sendToDiscord] is called for every file of the
    queue in order, and the failed file is neither in [sentFiles] nor in
    the sent log at the end. *)
Theorem failure_does_not_stop_the_run w tz dir webhookUrl delayMs d0 K file e :
  well_formed w dir ->
  nth_error (workQueue w tz dir d0) K = Some file ->
  fst (sendToDiscord w file webhookUrl
         (snd (interrupted K w tz dir webhookUrl delayMs (start d0)))) = Throw e ->
  let run := sendAllArchives w tz dir webhookUrl delayMs (start d0) in
  (exists n, fst run = Return n)
  /\ calls (trace (snd run)) = workQueue w tz dir d0
  /\ ~ In file (sentFiles (snd run))
  /\ ~ In file (recorded (disk (snd run))).
Proof.
  intros W HK E. cbv zeta.
  rewrite interrupted_cases in E. cbv zeta in E. cbn [start disk] in E.
  rewrite sendAllArchives_cases. cbv zeta. cbn [start disk].
  set (q := workQueue w tz dir d0) in *.
  set (s0 := prepared (sortedFiles w tz dir) q (start d0)) in *.
  destruct (loop_around w webhookUrl (default_delay delayMs) q q K file s0 HK)
    as (sK & p1 & s' & p2 & E1 & P1 & -> & -> & P2).
  rewrite E1 in E. cbn [snd] in E.
  destruct (sendToDiscord w file webhookUrl sK) as [r sK1] eqn:ES.
  cbn [fst] in E. subst r.
  rewrite (deliver_after_throw _ _ _ _ _ _ _ _ _ ES) in P2. cbn [snd] in P2.
  pose proof (step_failure _ _ _ _ _ _ ES) as PK.
  pose proof (progress_trans _ _ _ _ _ _ _ P1
                (progress_trans _ _ _ _ _ _ _ PK P2)) as P.
  cbn [app] in P. rewrite <- (split_at q K file HK) in P.
  assert (Nq : NoDup q) by apply workQueue_NoDup, W.
  assert (Hfile : ~ In file (recorded d0) /\ ~ In file p1 /\ ~ In file p2).
  { rewrite (split_at q K file HK) in Nq.
    apply NoDup_remove_2 in Nq.
    assert (In file q) by (eapply nth_error_In, HK).
    apply workQueue_In in H as [_ H]. split; [exact H|].
    split; intros Hp; apply Nq, in_or_app.
    - left. now apply (pushed_from_queue _ _ _ _ P1).
    - right. now apply (pushed_from_queue _ _ _ _ P2). }
  destruct (progress_recorded _ _ _ _ _ _ P) as [L S]. cbn [start disk] in S.
  assert (Hs : ~ In file (sentFiles s')).
  { rewrite S, !in_app_iff. tauto. }
  cbn [fst snd reported with_trace sentFiles disk trace]. repeat split.
  - eauto.
  - rewrite calls_app. cbn [summary map calls]. rewrite app_nil_r.
    rewrite (all_called _ _ _ _ P). unfold s0. cbn [prepared trace start disk].
    rewrite app_nil_l.
    now destruct (header_silent d0 (sortedFiles w tz dir) q) as [-> _].
  - exact Hs.
  - now rewrite L.
Qed.

Lemma failure_does_not_stop_the_run_witness :
  calls (trace (snd (sendAllArchives january_world utc_zone "archives" hook None
                       (start Absent))))
  = ["archives/1 January 2024.png"; "archives/15 January 2024.png";
     "archives/3 February 2024.png"]
  /\ ~ In "archives/1 January 2024.png"
       (recorded (disk (snd (sendAllArchives january_world utc_zone "archives"
                               hook None (start Absent))))).
Proof.
  destruct (failure_does_not_stop_the_run january_world utc_zone "archives" hook
              None Absent 0 "archives/1 January 2024.png"
              (api_error 429 "You are being rate limited."))
    as (_ & C & _ & D); [reflexivity | reflexivity | reflexivity |].
  split; [rewrite C; reflexivity | exact D].
Defined.

(** One more turn: the state after [S k] turns is the state after [k]
    turns, taken through the delivery of the file of index [k]. *)
Lemma interrupted_succ k w tz dir webhookUrl delayMs s :
  let q := workQueue w tz dir (disk s) in
  let sk := snd (interrupted k w tz dir webhookUrl delayMs s) in
  snd (interrupted (S k) w tz dir webhookUrl delayMs s)
  = match nth_error q k with
    | Some file =>
        snd (deliver w webhookUrl (default_delay delayMs) q
               (List.length (firstn k q)) file sk)
    | None => sk
    end.
Proof.
  cbv zeta. rewrite !interrupted_cases. cbv zeta.
  set (q := workQueue w tz dir (disk s)).
  set (s0 := prepared (sortedFiles w tz dir) q s).
  rewrite firstn_succ, for_each_app.
  destruct (loop_progress w webhookUrl (default_delay delayMs) q (firstn k q) 0 s0)
    as (sk & p & -> & _). cbn [snd Nat.add].
  destruct (nth_error q k) as [file|]; [|reflexivity].
  cbn [for_each]. unfold bind.
  pose proof (deliver_returns w webhookUrl (default_delay delayMs) q
                (List.length (firstn k q)) file sk) as R.
  destruct (deliver _ _ _ _ _ file sk) as [r s']. cbn in R. now subst r.
Qed.

(** C9. From a sent log without duplicates, after any number of turns of
    the loop [sentFiles] has no path twice; a turn only appends to it; and a
    turn whose delivery succeeds appends the file and at once writes the
    whole array to the sent log, which then holds exactly that array. *)
Theorem sent_log_invariant w tz dir webhookUrl delayMs d0 k :
  well_formed w dir ->
  NoDup (recorded d0) ->
  let q := workQueue w tz dir d0 in
  let sk := snd (interrupted k w tz dir webhookUrl delayMs (start d0)) in
  let sk1 := snd (interrupted (S k) w tz dir webhookUrl delayMs (start d0)) in
  NoDup (sentFiles sk)
  /\ (exists pushed, sentFiles sk1 = (sentFiles sk ++ pushed)%list)
  /\ (forall file b s1,
         nth_error q k = Some file ->
         sendToDiscord w file webhookUrl sk = (Return b, s1) ->
         sentFiles sk1 = (sentFiles sk ++ [file])%list
         /\ disk sk1 = Saved (sentFiles sk1)
         /\ exists evs,
              trace sk1 = (trace s1 ++ WriteSentLog (sentFiles sk1) :: evs)%list).
Proof.
  intros W N0. cbv zeta.
  rewrite (interrupted_succ k w tz dir webhookUrl delayMs (start d0)).
  cbv zeta. cbn [start disk].
  destruct (interrupted_run k w tz dir webhookUrl delayMs (start d0))
    as (sk & pushed & -> & P). cbn [snd start disk] in *.
  set (q := workQueue w tz dir d0) in *.
  split; [|split].
  - apply (progress_NoDup w tz dir (start d0) (firstn k q) pushed sk); auto.
    + apply firstn_subset.
    + apply firstn_NoDup, workQueue_NoDup, W.
  - destruct (nth_error q k) as [file|]; [|exists []; now rewrite app_nil_r].
    rewrite deliver_cases.
    destruct (sendToDiscord w file webhookUrl sk) as [[b|e] s1] eqn:E;
      destruct (sendToDiscord_frame _ _ _ _ _ _ E) as (F & _);
      cbn [snd after_success after_failure sentFiles]; rewrite F.
    + now exists [file].
    + exists []. now rewrite app_nil_r.
  - intros file b s1 -> E. rewrite (deliver_after_return _ _ _ _ _ _ _ _ _ E).
    destruct (sendToDiscord_frame _ _ _ _ _ _ E) as (F & _).
    cbn [snd after_success sentFiles disk trace]. rewrite F.
    repeat split. eauto.
Qed.

Lemma sent_log_invariant_witness :
  disk (snd (interrupted 1 demo_world utc_zone "archives" hook None (start Absent)))
  = Saved ["archives/2025/December/9 December 2025.png"].
Proof.
  destruct (sent_log_invariant demo_world utc_zone "archives" hook None Absent 0)
    as (_ & _ & H); [reflexivity | constructor |].
  destruct (H "archives/2025/December/9 December 2025.png" true _
              eq_refl eq_refl) as (_ & -> & _).
  reflexivity.
Defined.

(* ===================================================================== *)
(** * Order of delivery *)
(* ===================================================================== *)


(** A run calls [sendToDiscord] for the work queue, in order. *)
Lemma run_calls w tz dir webhookUrl delayMs d0 :
  calls (trace (snd (sendAllArchives w tz dir webhookUrl delayMs (start d0))))
  = workQueue w tz dir d0.
Proof.
  destruct (sendAllArchives_run w tz dir webhookUrl delayMs (start d0))
    as (s1 & pushed & P & ->).
  cbn [snd reported with_trace trace]. rewrite calls_app.
  cbn [summary map calls]. rewrite app_nil_r, (all_called _ _ _ _ P).
  cbn [prepared trace start disk]. rewrite app_nil_l.
  now destruct (header_silent d0 (sortedFiles w tz dir)
                  (workQueue w tz dir d0)) as [-> _].
Qed.



(** The example of the specification: files dated 1 January, 15 January and
    3 February 2024, discovered in another order. *)
Example three_dates_in_order :
  getAllPngFiles january_world "archives"
  = ["archives/15 January 2024.png"; "archives/3 February 2024.png";
     "archives/1 January 2024.png"]
  /\ calls (trace (snd (sendAllArchives january_world utc_zone "archives" hook
                          None (start Absent))))
     = ["archives/1 January 2024.png"; "archives/15 January 2024.png";
        "archives/3 February 2024.png"].
Proof. split; vm_compute; reflexivity. Qed.


(* ===================================================================== *)
(** * The date extractor *)
(* ===================================================================== *)

Local Open Scope Z_scope.

Lemma indexOf_range l x :
  indexOf l x = -1
  \/ (0 <= indexOf l x < Z.of_nat (List.length l)
      /\ nth_error l (Z.to_nat (indexOf l x)) = Some x).
Proof.
  induction l as [|y l IH]; cbn [indexOf]; [now left|].
  destruct (String.eqb_spec y x) as [->|N].
  - right. cbn. split; [lia | reflexivity].
  - destruct IH as [->|[R E]]; [now left|].
    destruct (Z.eqb_spec (indexOf l x) (-1)); [lia|]. right.
    cbn [List.length]. split; [lia|].
    replace (Z.to_nat (indexOf l x + 1)) with (S (Z.to_nat (indexOf l x))) by lia.
    exact E.
Qed.

Lemma TimeClip_in_range t : - maxTime <= t <= maxTime -> TimeClip t = Num t.
Proof.
  intros H. unfold TimeClip. destruct (Z.ltb_spec maxTime (Z.abs t)); [lia | reflexivity].
Qed.

Lemma MakeDay_bounds year m date :
  0 <= m <= 11 -> 1 <= date <= DaysInMonth year m ->
  DayFromYear year <= MakeDay year m date < DayFromYear (year + 1).
Proof.
  intros Hm Hd. rewrite MakeDay_in_range by exact Hm.
  rewrite DayFromYear_succ, isLeapYear_days. unfold DaysInMonth in Hd.
  destruct (isLeapYear year); month_cases m; eval_month_start; lia.
Qed.

(** C5, as the code has it. [extractDateFromPath] is a total function.  For
    a file name that does not match the pattern, or whose month is not one
    of the twelve names, it returns 0.  For a file name that matches, with a
    day of that month and a year from 100 to 275759, it returns the time
    value of local midnight of that day, whose year, month and day are the
    parsed ones; this value is above 0 when the day is 2 January 1970 or
    later. *)
Theorem extractDateFromPath_contract LocalTZA filePath :
  ((forall d m y, match_date (basename filePath) = Some (d, m, y) ->
                  indexOf months m = -1) ->
   extractDateFromPath LocalTZA filePath = Num 0)
  /\ (forall d m y,
         match_date (basename filePath) = Some (d, m, y) ->
         let day := parseInt d in
         let year := parseInt y in
         let monthIndex := indexOf months m in
         monthIndex <> -1 ->
         nth_error months (Z.to_nat monthIndex) = Some m
         /\ (1 <= day <= DaysInMonth year monthIndex ->
             100 <= year <= 275759 ->
             (forall t, - msPerDay < LocalTZA t < msPerDay) ->
             let t := MakeDate (MakeDay year monthIndex day) 0 in
             extractDateFromPath LocalTZA filePath = Num (UTC LocalTZA t)
             /\ YearFromTime t = year
             /\ MonthFromTime t = monthIndex
             /\ DateFromTime t = day
             /\ TimeWithinDay t = 0
             /\ (1 <= MakeDay year monthIndex day -> 0 < UTC LocalTZA t))).
Proof.
  unfold extractDateFromPath. split.
  - intros H. destruct (match_date (basename filePath)) as [[[d m] y]|];
      [|reflexivity].
    now rewrite (H d m y eq_refl).
  - intros d m y ->. cbv zeta. intros Hm.
    destruct (indexOf_range months m) as [|[R E]]; [contradiction|].
    change (Z.of_nat (List.length months)) with 12 in R.
    split; [exact E|]. intros Hd Hy Hz.
    destruct (Z.eqb_spec (indexOf months m) (-1)); [contradiction|]. cbn [negb].
    set (mi := indexOf months m) in *. set (year := parseInt y) in *.
    set (day := parseInt d) in *.
    pose proof (MakeDay_bounds year mi day ltac:(lia) Hd) as [B1 B2].
    pose proof (DayFromYear_mono 100 year ltac:(lia)) as M1.
    pose proof (DayFromYear_mono (year + 1) 275760 ltac:(lia)) as M2.
    change (DayFromYear 100) with (-683003) in M1.
    change (DayFromYear 275760) with 99999744 in M2.
    destruct (date_roundtrip year mi day ltac:(lia) Hd) as (RY & RM & RD & RT).
    unfold Date_getTime.
    replace ((0 <=? year) && (year <=? 99)) with false by lia.
    specialize (Hz (MakeDate (MakeDay year mi day) 0)).
    assert (T : MakeDate (MakeDay year mi day) 0 = MakeDay year mi day * 86400000)
      by (unfold MakeDate, msPerDay; lia).
    unfold msPerDay in Hz.
    rewrite TimeClip_in_range by (unfold UTC, maxTime; lia).
    repeat split; try assumption.
    intros P. unfold UTC. lia.
Qed.

Lemma extractDateFromPath_contract_witness :
  extractDateFromPath utc_zone "archives/2025/December/9 December 2025.png"
  = Num 1765238400000.
Proof.
  destruct (extractDateFromPath_contract utc_zone
              "archives/2025/December/9 December 2025.png") as [_ H].
  destruct (H "9" "December" "2025" eq_refl) as [_ H']; [discriminate|].
  destruct H' as (-> & _); [vm_compute; split; discriminate
                           | vm_compute; split; discriminate
                           | intros t; vm_compute; split; reflexivity |].
  reflexivity.
Defined.

(** C5 as stated fails in four ways: a date before 1970 is below the value
    returned for unknown names; a day past the end of the month carries into
    the next month; a year below 100 is read as 1900 + year; a year beyond
    the range of [Date] gives [NaN]. *)
Lemma extractDateFromPath_not_as_stated :
  (match_date "1 January 1960.png" = Some ("1", "January", "1960")
   /\ extractDateFromPath utc_zone "1 January 1960.png" = Num (-315619200000)
   /\ extractDateFromPath utc_zone "unknown.png" = Num 0)
  /\ (match_date "31 February 2024.png" = Some ("31", "February", "2024")
      /\ extractDateFromPath utc_zone "31 February 2024.png"
         = extractDateFromPath utc_zone "2 March 2024.png")
  /\ (match_date "5 May 24.png" = Some ("5", "May", "24")
      /\ extractDateFromPath utc_zone "5 May 24.png"
         = extractDateFromPath utc_zone "5 May 1924.png")
  /\ (match_date "1 January 300000.png" = Some ("1", "January", "300000")
      /\ extractDateFromPath utc_zone "1 January 300000.png" = NaN)
  /\ ~ (forall filePath d m y,
           match_date (basename filePath) = Some (d, m, y) ->
           indexOf months m <> -1 ->
           exists t,
             extractDateFromPath utc_zone filePath = Num t
             /\ YearFromTime t = parseInt y
             /\ MonthFromTime t = indexOf months m
             /\ DateFromTime t = parseInt d
             /\ 0 < t).
Proof.
  split; [repeat split; vm_compute; reflexivity|].
  split; [split; vm_compute; reflexivity|].
  split; [split; vm_compute; reflexivity|].
  split; [split; vm_compute; reflexivity|].
  intros H.
  destruct (H "1 January 1960.png" "1" "January" "1960" eq_refl)
    as (t & E & _ & _ & _ & P); [discriminate|].
  vm_compute in E. injection E as <-. lia.
Qed.

Local Close Scope Z_scope.

(* ===================================================================== *)
(** * The earlier revision *)
(* ===================================================================== *)







Example earlier_counts_failures_as_sent :
  fst (Earlier.sendAllArchives january_world utc_zone "archives" hook None
         (start Absent)) = Return 3%nat
  /\ fst (sendAllArchives january_world utc_zone "archives" hook None
            (start Absent)) = Return 2%nat.
Proof. split; vm_compute; reflexivity. Qed.

(* ===================================================================== *)
(** * Numbers in names: decimal digits *)
(* ===================================================================== *)

Lemma uint_digits (d : Decimal.uint) :
  all_in is_digit (NilEmpty.string_of_uint d) = true.
Proof. induction d; cbn; auto. Qed.

Lemma decimal_unfold (n : N) :
  decimal n = NilEmpty.string_of_uint (N.to_uint n)
  /\ N.to_uint n <> Decimal.Nil.
Proof.
  unfold decimal. destruct n as [|p]; cbn.
  - split; [reflexivity | discriminate].
  - pose proof (DecimalPos.Unsigned.to_uint_nonnil p) as H.
    destruct (Pos.to_uint p); [contradiction | split; [reflexivity | discriminate] ..].
Qed.

Lemma decimal_digits (n : N) : all_in is_digit (decimal n) = true.
Proof. rewrite (proj1 (decimal_unfold n)). apply uint_digits. Qed.

Lemma decimal_not_empty (n : N) : decimal n <> "".
Proof.
  destruct (decimal_unfold n) as [E H]. rewrite E.
  destruct (N.to_uint n); [contradiction | discriminate ..].
Qed.

Lemma parse_digits_acc (d : Decimal.uint) (acc : positive) :
  parse_digits (Z.pos acc) (NilEmpty.string_of_uint d)
  = Z.pos (Pos.of_uint_acc d acc).
Proof.
  revert acc.
  induction d; intro acc; cbn [NilEmpty.string_of_uint parse_digits Pos.of_uint_acc];
    [reflexivity | rewrite <- IHd; f_equal; vm_compute digit_value; lia ..].
Qed.

Lemma parse_digits_uint (d : Decimal.uint) :
  parse_digits 0 (NilEmpty.string_of_uint d) = Z.of_N (Pos.of_uint d).
Proof.
  induction d; cbn [NilEmpty.string_of_uint parse_digits Pos.of_uint];
    [reflexivity | exact IHd | ..];
    cbn [Z.of_N]; rewrite <- parse_digits_acc; f_equal.
Qed.

Lemma parseInt_decimal (n : N) : parseInt (decimal n) = Z.of_N n.
Proof.
  unfold parseInt. rewrite (proj1 (decimal_unfold n)), parse_digits_uint.
  f_equal. apply DecimalN.Unsigned.of_to.
Qed.

(* ===================================================================== *)
(** * Paths and names *)
(* ===================================================================== *)

Lemma endsWith_spec (s t : string) :
  endsWith s t = true <-> exists a, s = a ++ t.
Proof.
  split.
  - induction s as [|c s IH]; cbn [endsWith].
    + rewrite orb_false_r. intro H. apply String.eqb_eq in H. now exists "".
    + intro H. apply orb_true_iff in H as [H|H].
      * apply String.eqb_eq in H. now exists "".
      * destruct (IH H) as [a ->]. now exists (String c a).
  - intros [a ->]. induction a as [|c a IH].
    + destruct t; cbn [endsWith append]; rewrite String.eqb_refl; reflexivity.
    + cbn [endsWith append]. rewrite IH. apply orb_true_r.
Qed.

Lemma no_slash_app (a b : string) :
  no_slash (a ++ b) = no_slash a && no_slash b.
Proof. induction a; cbn; [reflexivity | now rewrite IHa, andb_assoc]. Qed.

Lemma strip_no_slash (n : string) :
  no_slash n = true -> strip_trailing_slashes n = n.
Proof.
  induction n as [|c n IH]; cbn; [reflexivity|].
  intro H. apply andb_true_iff in H as [Hc Hn]. rewrite (IH Hn).
  destruct n; [|reflexivity].
  now destruct (Ascii.eqb c slash).
Qed.

Lemma strip_app (a n : string) :
  no_slash n = true -> n <> "" -> strip_trailing_slashes (a ++ n) = a ++ n.
Proof.
  intros Hn Hne. induction a as [|c a IH]; cbn.
  - now apply strip_no_slash.
  - rewrite IH. destruct (a ++ n) eqn:E; [|reflexivity].
    destruct a; cbn in E; [contradiction | discriminate].
Qed.

Lemma after_last_slash_none (acc n : string) :
  no_slash n = true -> after_last_slash acc n = acc.
Proof.
  revert acc. induction n as [|c n IH]; intros acc H; cbn in *; [reflexivity|].
  apply andb_true_iff in H as [Hc Hn].
  destruct (Ascii.eqb c slash); [discriminate | now apply IH].
Qed.

Lemma after_last_slash_app (acc a n : string) :
  no_slash n = true -> after_last_slash acc (a ++ String slash n) = n.
Proof.
  intro Hn. revert acc. induction a as [|c a IH]; intro acc; cbn.
  - now apply after_last_slash_none.
  - destruct (Ascii.eqb c slash); apply IH.
Qed.

Lemma basename_join (dir name : string) :
  no_slash name = true -> name <> "" -> basename (join dir name) = name.
Proof.
  intros Hn Hne. unfold basename, join.
  assert (E : dir ++ "/" ++ name = (dir ++ "/") ++ name) by now rewrite append_assoc.
  rewrite E, strip_app, <- E by assumption.
  now apply after_last_slash_app.
Qed.

Lemma basename_name (name : string) :
  no_slash name = true -> basename name = name.
Proof.
  intro H. unfold basename. rewrite strip_no_slash by assumption.
  now apply after_last_slash_none.
Qed.

Lemma is_png_not_empty (name : string) : is_png name = true -> name <> "".
Proof. intros H ->. discriminate. Qed.

(* ===================================================================== *)
(** * The scanner *)
(* ===================================================================== *)

Lemma listed_scan (dir : string) (items : list entry) (p : string) :
  listed dir items p -> In p (flat_map (scan_entry dir) items).
Proof.
  induction 1 as [dir items name Hin Hpng | dir items name sub p Hin _ IH];
    apply in_flat_map.
  - exists (FileEntry name). split; [assumption|].
    cbn. fold (is_png name). rewrite Hpng. now left.
  - exists (DirEntry name sub). split; assumption.
Qed.

Lemma scan_listed (e : entry) :
  forall dir items p,
    In e items -> In p (scan_entry dir e) -> listed dir items p.
Proof.
  induction e as [name | name sub IH | name] using entry_induction;
    intros dir items p Hin Hp; cbn in Hp.
  - fold (is_png name) in Hp. destruct (is_png name) eqn:E; [|contradiction].
    destruct Hp as [<-|[]]. now apply listed_here.
  - apply in_flat_map in Hp as [e' [He' Hp]].
    apply listed_below with (name := name) (sub := sub); [assumption|].
    rewrite Forall_forall in IH. now apply (IH e' He').
  - contradiction.
Qed.

Lemma scan_iff (dir : string) (items : list entry) (p : string) :
  In p (flat_map (scan_entry dir) items) <-> listed dir items p.
Proof.
  split; [|apply listed_scan].
  intro H. apply in_flat_map in H as [e [He Hp]]. now apply scan_listed with e.
Qed.




(** X1. [getAllPngFiles] returns exactly the paths of the regular files, at
    any depth below the directory, whose name ends in [.png] and does not
    begin with a dot.  Directories are entered whatever their name, entries
    that are neither files nor directories give nothing, and a directory
    that does not exist gives the empty list. *)
Theorem getAllPngFiles_listed (w : world) (dir p : string) :
  In p (getAllPngFiles w dir)
  <-> exists items, archives w dir = Some items /\ listed dir items p.
Proof.
  unfold getAllPngFiles. destruct (archives w dir) as [items|].
  - rewrite scan_iff. split.
    + intro H. now exists items.
    + intros (items' & E & H). now injection E as <-.
  - split; [contradiction | intros (items & E & _); discriminate].
Qed.



(** X3. The date of a path is the date of its file name: the directories a
    capture lies in play no part in its date. *)
Theorem date_ignores_directory (LocalTZA : Z -> Z) (dir name : string) :
  no_slash name = true -> name <> "" ->
  extractDateFromPath LocalTZA (join dir name)
  = extractDateFromPath LocalTZA name.
Proof.
  intros Hns Hne. unfold extractDateFromPath.
  now rewrite basename_join, basename_name.
Qed.

Lemma date_ignores_directory_witness :
  extractDateFromPath utc_zone (join "archives/1999/May" "9 December 2025.png")
  = extractDateFromPath utc_zone "9 December 2025.png".
Proof.
  apply (date_ignores_directory utc_zone); [reflexivity | discriminate].
Defined.

(* ===================================================================== *)
(** * The date line of a message *)
(* ===================================================================== *)

(** X4. The date line of the embed, for a file name of the pattern: the
    day, the month and the year separated by single spaces, whatever white
    space the name has between them; with [.png] added it is again a name
    of the pattern, with the same three groups. *)
Theorem formattedDate_matching (filename d m y : string) :
  match_date filename = Some (d, m, y) ->
  formattedDate filename = d ++ " " ++ m ++ " " ++ y
  /\ match_date (formattedDate filename ++ ".png") = Some (d, m, y).
Proof.
  unfold formattedDate. intro E. rewrite E. split; [reflexivity|].
  apply match_date_Matches in E
    as (w1 & w2 & _ & Hd & Hd' & _ & _ & Hm & Hm' & _ & _ & Hy & Hy').
  apply match_date_Matches. exists " ", " ".
  rewrite !append_assoc. repeat split; assumption || discriminate.
Qed.

Lemma formattedDate_matching_witness :
  formattedDate "9   December 2025.png" = "9" ++ " " ++ "December" ++ " " ++ "2025"
  /\ match_date (formattedDate "9   December 2025.png" ++ ".png")
     = Some ("9", "December", "2025").
Proof. apply formattedDate_matching. reflexivity. Defined.

(* ===================================================================== *)
(** * The names [screenshot.js] gives its captures *)
(* ===================================================================== *)

Lemma digits_no_slash (s : string) : all_in is_digit s = true -> no_slash s = true.
Proof.
  induction s as [|c s IH]; cbn; [reflexivity|].
  intro H. apply andb_true_iff in H as [Hc Hs]. rewrite (IH Hs), andb_true_r.
  revert Hc. class_cases c.
Qed.

Lemma monthName_facts (now : clock) :
  (getMonth now < 12)%nat ->
  all_in is_word (monthName now) = true /\ monthName now <> ""
  /\ no_slash (monthName now) = true
  /\ indexOf months (monthName now) = Z.of_nat (getMonth now).
Proof.
  unfold monthName. generalize (getMonth now). intros k H.
  do 12 (destruct k as [|k];
         [vm_compute; repeat split; first [reflexivity | discriminate]|]).
  lia.
Qed.

Lemma captureName_Matches (now : clock) :
  (getMonth now < 12)%nat ->
  Matches (captureName now) (decimal (getDate now)) (monthName now)
          (decimal (getFullYear now)).
Proof.
  intro H. destruct (monthName_facts now H) as (Hw & Hne & _ & _).
  exists " ", " ". unfold captureName.
  repeat split; auto using decimal_digits, decimal_not_empty; discriminate.
Qed.

Lemma captureName_no_slash (now : clock) :
  (getMonth now < 12)%nat -> no_slash (captureName now) = true.
Proof.
  intro H. destruct (monthName_facts now H) as (_ & _ & Hns & _).
  unfold captureName. rewrite !no_slash_app, Hns.
  rewrite (digits_no_slash _ (decimal_digits (getDate now))).
  rewrite (digits_no_slash _ (decimal_digits (getFullYear now))).
  reflexivity.
Qed.

Lemma captureName_png (now : clock) : is_png (captureName now) = true.
Proof.
  unfold is_png. apply andb_true_iff. split.
  - apply endsWith_spec.
    exists (decimal (getDate now) ++ " " ++ monthName now ++ " "
            ++ decimal (getFullYear now)).
    unfold captureName. now rewrite !append_assoc.
  - unfold captureName, startsWith.
    pose proof (decimal_digits (getDate now)) as Hd.
    pose proof (decimal_not_empty (getDate now)) as Hne.
    destruct (decimal (getDate now)) as [|c s]; [contradiction|].
    cbn in Hd. apply andb_true_iff in Hd as [Hc _].
    cbn [append String.prefix].
    destruct (ascii_dec "." c) as [<-|]; [discriminate | reflexivity].
Qed.

Lemma capture_basename (now : clock) :
  (getMonth now < 12)%nat -> basename (capturePath now) = captureName now.
Proof.
  intro H. unfold capturePath. apply basename_join.
  - now apply captureName_no_slash.
  - apply is_png_not_empty, captureName_png.
Qed.

Lemma capture_extract (LocalTZA : Z -> Z) (now : clock) :
  (getMonth now < 12)%nat ->
  extractDateFromPath LocalTZA (capturePath now)
  = Date_getTime LocalTZA (Z.of_N (getFullYear now)) (Z.of_nat (getMonth now))
                 (Z.of_N (getDate now)).
Proof.
  intro H. unfold extractDateFromPath.
  rewrite capture_basename by assumption.
  rewrite (proj2 (match_date_Matches _ _ _ _) (captureName_Matches now H)).
  destruct (monthName_facts now H) as (_ & _ & _ & ->).
  rewrite !parseInt_decimal.
  destruct (Z.of_nat (getMonth now) =? -1)%Z eqn:E; [lia | reflexivity].
Qed.

Local Open Scope Z_scope.

Lemma month_start_mono (leap : bool) (m n : Z) :
  0 <= m -> m <= n -> n <= 12 -> month_start leap m <= month_start leap n.
Proof.
  intros H0 H1 H2.
  assert (step : forall k, 0 <= k <= 11 ->
            month_start leap k <= month_start leap (k + 1)).
  { intros k Hk. month_cases k; destruct leap; vm_compute; discriminate. }
  replace n with (m + Z.of_nat (Z.to_nat (n - m))) in * by lia.
  induction (Z.to_nat (n - m)) as [|j IH].
  - rewrite Z.add_0_r. lia.
  - rewrite Nat2Z.inj_succ in *.
    etransitivity; [apply IH; lia|].
    replace (m + Z.succ (Z.of_nat j)) with (m + Z.of_nat j + 1) by lia.
    apply step. lia.
Qed.

Lemma capture_day (now : clock) :
  on_calendar now ->
  let y := Z.of_N (getFullYear now) in
  let m := Z.of_nat (getMonth now) in
  let d := Z.of_N (getDate now) in
  MakeDay y m d = DayFromYear y + month_start (isLeapYear y) m + d - 1
  /\ DayFromYear 100 <= MakeDay y m d < DayFromYear 275760.
Proof.
  intros (Hy & Hm & Hd) y m d. fold y m d in Hy, Hd.
  assert (Hm' : 0 <= m <= 11) by (unfold m; lia).
  split; [now apply MakeDay_in_range|].
  pose proof (MakeDay_bounds y m d Hm' Hd) as B.
  pose proof (DayFromYear_mono 100 y ltac:(lia)).
  pose proof (DayFromYear_mono (y + 1) 275760 ltac:(lia)).
  lia.
Qed.

Lemma capture_days_ordered (a b : clock) :
  on_calendar a -> on_calendar b -> day_before a b ->
  MakeDay (Z.of_N (getFullYear a)) (Z.of_nat (getMonth a)) (Z.of_N (getDate a))
  < MakeDay (Z.of_N (getFullYear b)) (Z.of_nat (getMonth b)) (Z.of_N (getDate b)).
Proof.
  intros Ha Hb Hlt.
  pose proof Ha as (Hya & Hma & Hda). pose proof Hb as (Hyb & Hmb & Hdb).
  destruct Hlt as [Hy | [Ey [Hm | [Em Hd]]]].
  - assert (Ra : 0 <= Z.of_nat (getMonth a) <= 11) by lia.
    assert (Rb : 0 <= Z.of_nat (getMonth b) <= 11) by lia.
    pose proof (MakeDay_bounds _ _ _ Ra Hda) as Ba.
    pose proof (MakeDay_bounds _ _ _ Rb Hdb) as Bb.
    pose proof (DayFromYear_mono (Z.of_N (getFullYear a) + 1)
                  (Z.of_N (getFullYear b)) ltac:(lia)).
    lia.
  - rewrite (proj1 (capture_day a Ha)), (proj1 (capture_day b Hb)).
    rewrite Ey in *. unfold DaysInMonth in Hda.
    pose proof (month_start_mono (isLeapYear (Z.of_N (getFullYear b)))
                  (Z.of_nat (getMonth a) + 1) (Z.of_nat (getMonth b))
                  ltac:(lia) ltac:(lia) ltac:(lia)).
    lia.
  - rewrite (proj1 (capture_day a Ha)), (proj1 (capture_day b Hb)).
    rewrite Ey, Em. lia.
Qed.

Lemma capture_time (LocalTZA : Z -> Z) (now : clock) :
  zone LocalTZA -> on_calendar now ->
  let t := MakeDate (MakeDay (Z.of_N (getFullYear now)) (Z.of_nat (getMonth now))
                             (Z.of_N (getDate now))) 0 in
  extractDateFromPath LocalTZA (capturePath now) = Num (t - LocalTZA t).
Proof.
  intros [Hz _] Hc t. pose proof Hc as (Hy & Hm & Hd).
  rewrite capture_extract by assumption. unfold Date_getTime.
  replace ((0 <=? Z.of_N (getFullYear now)) && (Z.of_N (getFullYear now) <=? 99))
    with false by (symmetry; apply andb_false_iff; right; lia).
  fold t. unfold UTC. apply TimeClip_in_range.
  destruct (capture_day now Hc) as [_ B].
  assert (E1 : DayFromYear 100 = -683003) by (vm_compute; reflexivity).
  assert (E2 : DayFromYear 275760 = 99999744) by (vm_compute; reflexivity).
  rewrite E1, E2 in B. specialize (Hz t).
  unfold t, MakeDate, maxTime, msPerDay in *. lia.
Qed.

(** X5. Captures of [screenshot.js] taken on different days are put in the
    order of their days by the comparator of the sync, whatever folders and
    discovery order they come in: the later capture goes after the earlier
    one. *)
Theorem captures_in_calendar_order (LocalTZA : Z -> Z) (a b : clock) :
  zone LocalTZA -> on_calendar a -> on_calendar b -> day_before a b ->
  goes_after (by_date LocalTZA (capturePath b) (capturePath a)) = true
  /\ goes_after (by_date LocalTZA (capturePath a) (capturePath b)) = false.
Proof.
  intros Hz Ha Hb Hlt. unfold by_date.
  rewrite !capture_time by assumption. cbn [num_sub goes_after].
  pose proof (capture_days_ordered a b Ha Hb Hlt) as Hd.
  destruct Hz as [_ Hz].
  set (da := MakeDay (Z.of_N (getFullYear a)) _ _) in *.
  set (db := MakeDay (Z.of_N (getFullYear b)) _ _) in *.
  specialize (Hz (MakeDate db 0) (MakeDate da 0)).
  assert (msPerDay <= MakeDate db 0 - MakeDate da 0)
    by (unfold MakeDate, msPerDay; lia).
  split; [apply Z.ltb_lt | apply Z.ltb_ge]; lia.
Qed.

Lemma captures_in_calendar_order_witness :
  goes_after (by_date utc_zone (capturePath december_10) (capturePath december_9))
  = true
  /\ goes_after (by_date utc_zone (capturePath december_9) (capturePath december_10))
     = false.
Proof.
  apply captures_in_calendar_order.
  - split; intros; unfold utc_zone, msPerDay; simpl; lia.
  - split; [|split]; vm_compute; lia || (split; discriminate).
  - split; [|split]; vm_compute; lia || (split; discriminate).
  - right. split; [reflexivity|]. right. split; [reflexivity|]. reflexivity.
Defined.

Local Close Scope Z_scope.

(** X6. The name [screenshot.js] gives a capture, for any day, month and
    year of the clock: the last segment of the path is the file name; the
    name passes the test of the scanner; it is a name of the pattern, so that
    the date line of its message is the day, the month name and the year;
    and the date the sync reads from the path is
    [new Date(year, month, day)] for the year, month index and day of the
    capture. *)
Theorem capture_name_contract (LocalTZA : Z -> Z) (now : clock) :
  (getMonth now < 12)%nat ->
  basename (capturePath now) = captureName now
  /\ is_png (captureName now) = true
  /\ formattedDate (captureName now)
     = decimal (getDate now) ++ " " ++ monthName now ++ " "
       ++ decimal (getFullYear now)
  /\ extractDateFromPath LocalTZA (capturePath now)
     = Date_getTime LocalTZA (Z.of_N (getFullYear now))
                    (Z.of_nat (getMonth now)) (Z.of_N (getDate now)).
Proof.
  intro H. repeat split.
  - now apply capture_basename.
  - apply captureName_png.
  - unfold formattedDate.
    now rewrite (proj2 (match_date_Matches _ _ _ _) (captureName_Matches now H)).
  - now apply capture_extract.
Qed.

Lemma capture_name_contract_witness :
  basename (capturePath december_9) = captureName december_9
  /\ is_png (captureName december_9) = true
  /\ formattedDate (captureName december_9)
     = decimal 9 ++ " " ++ monthName december_9 ++ " " ++ decimal 2025
  /\ extractDateFromPath utc_zone (capturePath december_9)
     = Date_getTime utc_zone 2025 11 9.
Proof. apply (capture_name_contract utc_zone december_9). cbn. lia. Defined.

(** X7. What [screenshot.js] saves, the scanner finds: when the archive
    directory has the capture's file in the folder of its month in the
    folder of its year, the path of the capture below that directory is
    among the paths [getAllPngFiles] returns. *)
Theorem capture_is_discovered (w : world) (dir : string) (now : clock)
    (years months_of_year files : list entry) :
  archives w dir = Some years ->
  In (DirEntry (decimal (getFullYear now)) months_of_year) years ->
  In (DirEntry (monthName now) files) months_of_year ->
  In (FileEntry (captureName now)) files ->
  In (archivedPath dir now) (getAllPngFiles w dir).
Proof.
  intros E Hy Hm Hf. unfold getAllPngFiles. rewrite E. apply scan_iff.
  eapply listed_below; [exact Hy|].
  eapply listed_below; [exact Hm|].
  apply listed_here; [exact Hf | apply captureName_png].
Qed.

Lemma capture_is_discovered_witness :
  In (archivedPath "archives" december_9) (getAllPngFiles demo_world "archives").
Proof.
  apply (capture_is_discovered demo_world "archives" december_9
           [DirEntry "2025" [DirEntry "December" december]]
           [DirEntry "December" december] december).
  - reflexivity.
  - now left.
  - now left.
  - now left.
Defined.

(* ===================================================================== *)
(** * The delay setting *)
(* ===================================================================== *)

Lemma is_digit_in_ten (c : ascii) : is_digit_in 10 c = is_digit c.
Proof.
  destruct c as [[|] [|] [|] [|] [|] [|] [|] [|]]; vm_compute; reflexivity.
Qed.

Lemma digit_in_ten (c : ascii) :
  is_digit c = true -> digit_in 10 c = Some (digit_value c).
Proof.
  destruct c as [[|] [|] [|] [|] [|] [|] [|] [|]]; vm_compute;
    congruence.
Qed.

Lemma value_in_ten (s : string) (acc : Z) :
  all_in is_digit s = true -> value_in 10 acc s = parse_digits acc s.
Proof.
  revert acc. induction s as [|c s IH]; intros acc H; [reflexivity|].
  cbn [all_in] in H. apply andb_true_iff in H as [Hc Hs].
  cbn [value_in parse_digits]. rewrite (digit_in_ten c Hc). now apply IH.
Qed.

Lemma all_in_ext (p q : ascii -> bool) (s : string) :
  (forall c, p c = q c) -> all_in p s = all_in q s.
Proof. intro H. induction s; cbn; [reflexivity | now rewrite H, IHs]. Qed.

Lemma trimStart_app (ws rest : string) :
  all_in is_space ws = true -> trimmed rest -> trimStart (ws ++ rest) = rest.
Proof.
  intros H Hr. induction ws as [|c ws IH]; cbn.
  - destruct rest as [|c r]; [reflexivity|]. cbn in *. now rewrite Hr.
  - cbn in H. apply andb_true_iff in H as [Hc Hws]. rewrite Hc. now apply IH.
Qed.

(** The digits of a number, read after the sign has been. *)
Lemma unsigned_number (sign : Z) (ds rest : string) :
  all_in is_digit ds = true -> ds <> "" -> ds <> "0" ->
  match rest with "" => True | String c _ => is_digit c = false end ->
  (let '(R, body) :=
     match ds ++ rest with
     | String "0" (String "x" r) => (16%Z, r)
     | String "0" (String "X" r) => (16%Z, r)
     | _ => (10%Z, ds ++ rest)
     end in
   let (digits, _) := span (is_digit_in R) body in
   if is_empty digits then NaN else Num (sign * value_in R 0 digits))
  = Num (sign * parseInt ds).
Proof.
  intros Hd Hne Hz Hr.
  assert (E : match ds ++ rest with
              | String "0" (String "x" r) => (16%Z, r)
              | String "0" (String "X" r) => (16%Z, r)
              | _ => (10%Z, ds ++ rest)
              end = (10%Z, ds ++ rest)).
  { destruct ds as [|c [|c' ds]]; [contradiction | |].
    - cbn [append]. cbn in Hd. rewrite andb_true_r in Hd.
      destruct rest as [|r rest].
      + now destruct c as [[|] [|] [|] [|] [|] [|] [|] [|]].
      + destruct c as [[|] [|] [|] [|] [|] [|] [|] [|]]; try reflexivity;
          try discriminate Hd; now contradiction Hz.
    - cbn [append]. cbn in Hd.
      apply andb_true_iff in Hd as [_ Hd]. apply andb_true_iff in Hd as [Hc' _].
      destruct c as [[|] [|] [|] [|] [|] [|] [|] [|]]; try reflexivity.
      revert Hc'. clear.
      destruct c' as [[|] [|] [|] [|] [|] [|] [|] [|]]; try reflexivity;
        vm_compute; discriminate. }
  rewrite E.
  rewrite (span_unique (is_digit_in 10) ds rest).
  - apply is_empty_false in Hne. rewrite Hne.
    unfold parseInt. now rewrite value_in_ten.
  - rewrite (all_in_ext _ is_digit) by apply is_digit_in_ten. exact Hd.
  - destruct rest; [exact I | now rewrite is_digit_in_ten].
Qed.

Lemma decimal_head (n : N) :
  exists c s, decimal n = String c s /\ is_digit c = true.
Proof.
  pose proof (decimal_digits n) as Hd. pose proof (decimal_not_empty n) as Hne.
  destruct (decimal n) as [|c s]; [contradiction|].
  cbn in Hd. apply andb_true_iff in Hd as [Hc _]. now exists c, s.
Qed.

Lemma decimal_not_zero (n : N) : n <> 0%N -> decimal n <> "0".
Proof.
  intros Hn E. pose proof (parseInt_decimal n) as P. rewrite E in P.
  change (parseInt "0") with 0%Z in P. lia.
Qed.

Local Open Scope Z_scope.

(** X8. A delay set in the environment is honoured: when
    [DISCORD_DELAY_MS] is a number other than zero, with or without a minus
    sign, after any white space and before anything that is not a digit (a
    unit such as [ms]), [DELAY_MS] is that number; a negative setting gives
    a negative delay.  The number is below 2^53, where [parseInt] is
    exact. *)
Theorem DELAY_MS_from_setting (ws rest : string) (n : N) (negative : bool) :
  all_in is_space ws = true ->
  n <> 0%N -> (n < 2 ^ 53)%N ->
  match rest with "" => True | String c _ => is_digit c = false end ->
  DELAY_MS_env (Some (ws ++ (if negative then "-" else "") ++ decimal n ++ rest))
  = if negative then - Z.of_N n else Z.of_N n.
Proof.
  intros Hws Hn _ Hrest.
  destruct (decimal_head n) as (c & s & E & Hc).
  pose proof (unsigned_number (if negative then -1 else 1) (decimal n) rest
                (decimal_digits n) (decimal_not_empty n)
                (decimal_not_zero n Hn) Hrest) as U.
  rewrite parseInt_decimal in U.
  unfold DELAY_MS_env, ToString, parseInt_text.
  rewrite trimStart_app; [|assumption|].
  - destruct negative.
    + cbn [append]. rewrite U. cbn [DELAY_MS].
      destruct (-1 * Z.of_N n =? 0) eqn:Z0; lia.
    + cbn [append].
      assert (S : match decimal n ++ rest with
                  | String "-" r => (-1, r)
                  | String "+" r => (1, r)
                  | _ => (1, decimal n ++ rest)
                  end = (1, decimal n ++ rest)).
      { rewrite E. cbn [append]. revert Hc. clear.
        destruct c as [[|] [|] [|] [|] [|] [|] [|] [|]]; try reflexivity;
          vm_compute; discriminate. }
      rewrite S, U. cbn [DELAY_MS].
      destruct (1 * Z.of_N n =? 0) eqn:Z0; lia.
  - destruct negative; cbn [append]; [reflexivity|].
    rewrite E. cbn [append trimmed]. now apply digit_not_space.
Qed.

Lemma DELAY_MS_from_setting_witness :
  DELAY_MS_env (Some (" " ++ "" ++ decimal 3000 ++ "ms")) = 3000.
Proof.
  apply (DELAY_MS_from_setting " " "ms" 3000 false).
  - reflexivity.
  - discriminate.
  - reflexivity.
  - reflexivity.
Defined.

(** X9. Without a usable setting the delay is 2000: when
    [DISCORD_DELAY_MS] is not set, and when it is set to something that,
    after its leading white space, does not begin with a digit or a sign
    (the empty string among them). *)
Theorem DELAY_MS_default (ws rest : string) :
  all_in is_space ws = true ->
  match rest with
  | "" => True
  | String c _ =>
      is_space c = false /\ is_digit c = false /\ c <> "+"%char /\ c <> "-"%char
  end ->
  DELAY_MS_env None = 2000 /\ DELAY_MS_env (Some (ws ++ rest)) = 2000.
Proof.
  intros Hws Hrest. split; [reflexivity|].
  unfold DELAY_MS_env, ToString, parseInt_text.
  rewrite trimStart_app; [|assumption|].
  - destruct rest as [|c r]; [reflexivity|].
    destruct Hrest as (_ & Hd & Hp & Hm). revert Hd Hp Hm. clear.
    destruct c as [[|] [|] [|] [|] [|] [|] [|] [|]]; intros Hd Hp Hm;
      try reflexivity; try discriminate Hd; congruence.
  - destruct rest; [exact I | apply Hrest].
Qed.

Lemma DELAY_MS_default_witness :
  DELAY_MS_env None = 2000 /\ DELAY_MS_env (Some (" " ++ "fast")) = 2000.
Proof.
  apply DELAY_MS_default.
  - reflexivity.
  - repeat split; discriminate.
Defined.

Local Close Scope Z_scope.

(* ===================================================================== *)
(** * Requests and pauses of a run *)
(* ===================================================================== *)

(** What one turn of the loop requests and how it pauses, by the outcome of
    its delivery. *)
Lemma deliver_effect w webhookUrl delayMs newFiles i file s :
  let r := fst (sendToDiscord w file webhookUrl s) in
  let s' := snd (deliver w webhookUrl delayMs newFiles i file s) in
  requests (trace s')
  = (requests (trace s)
     ++ (if negb (falsy webhookUrl) && is_regular w file
         then [post file webhookUrl] else []))%list
  /\ sleeps (trace s')
     = (sleeps (trace s)
        ++ match r with
           | Return _ =>
               if (Z.of_nat i <? Z.of_nat (List.length newFiles) - 1)%Z
               then [delayMs] else []
           | Throw e => if rate_limited e then [cooldownMs] else []
           end)%list.
Proof.
  cbv zeta. rewrite deliver_cases, sendToDiscord_cases. unfold is_regular.
  destruct (falsy webhookUrl); cbn [negb andb].
  - cbn [fst snd after_failure trace with_trace].
    rewrite !requests_app, !sleeps_app. cbn [requests sleeps].
    destruct (rate_limited webhook_required); cbn [requests sleeps];
      now rewrite ?app_nil_r.
  - destruct (stat w file) as [[|]|].
    + destruct (endpoint w (requests (trace s)) (post file webhookUrl))
        as [status body | e]; [destruct (ok status)|];
        cbn [fst snd after_success after_failure trace with_trace];
        rewrite !requests_app, !sleeps_app; cbn [requests sleeps];
        rewrite ?requests_app, ?sleeps_app; cbn [requests sleeps].
      * destruct (_ <? _)%Z; cbn [requests sleeps]; now rewrite ?app_nil_r.
      * destruct (rate_limited _); cbn [requests sleeps]; now rewrite ?app_nil_r.
      * destruct (rate_limited _); cbn [requests sleeps]; now rewrite ?app_nil_r.
    + cbn [fst snd after_failure trace with_trace].
      rewrite !requests_app, !sleeps_app. cbn [requests sleeps].
      destruct (rate_limited _); cbn [requests sleeps]; now rewrite ?app_nil_r.
    + cbn [fst snd after_failure trace with_trace].
      rewrite !requests_app, !sleeps_app. cbn [requests sleeps].
      destruct (rate_limited _); cbn [requests sleeps]; now rewrite ?app_nil_r.
Qed.

Lemma for_each_cons {A} (body : nat -> A -> M unit) i x l s :
  fst (body i x s) = Return tt ->
  for_each body i (x :: l) s = for_each body (S i) l (snd (body i x s)).
Proof.
  intro H. cbn [for_each]. unfold bind.
  destruct (body i x s) as [r s1]. cbn in *. now subst r.
Qed.

Lemma loop_requests w webhookUrl delayMs newFiles queue :
  forall i s,
    requests (trace (snd (for_each (deliver w webhookUrl delayMs newFiles) i queue s)))
    = (requests (trace s)
       ++ (if falsy webhookUrl then []
           else map (fun f => post f webhookUrl) (filter (is_regular w) queue)))%list.
Proof.
  induction queue as [|file queue IH]; intros i s.
  - cbn. destruct (falsy webhookUrl); now rewrite app_nil_r.
  - rewrite for_each_cons by apply deliver_returns. rewrite IH.
    rewrite (proj1 (deliver_effect w webhookUrl delayMs newFiles i file s)).
    cbn [filter]. destruct (falsy webhookUrl); cbn [negb andb].
    + now rewrite !app_nil_r.
    + destruct (is_regular w file); cbn [map]; now rewrite <- app_assoc.
Qed.

Lemma loop_sleeps_bound w webhookUrl delayMs newFiles queue :
  forall i s, exists pauses,
    sleeps (trace (snd (for_each (deliver w webhookUrl delayMs newFiles) i queue s)))
    = (sleeps (trace s) ++ pauses)%list
    /\ Forall (fun ms => ms = delayMs \/ ms = cooldownMs) pauses
    /\ (List.length pauses <= List.length queue)%nat.
Proof.
  induction queue as [|file queue IH]; intros i s.
  - exists []. cbn. now rewrite app_nil_r.
  - rewrite for_each_cons by apply deliver_returns.
    destruct (IH (S i) (snd (deliver w webhookUrl delayMs newFiles i file s)))
      as (pauses & -> & HF & HL).
    rewrite (proj2 (deliver_effect w webhookUrl delayMs newFiles i file s)).
    set (one := match fst (sendToDiscord w file webhookUrl s) with
                | Return _ => _ | Throw e => _ end).
    exists (one ++ pauses)%list. rewrite <- app_assoc.
    assert (Hone : Forall (fun ms => ms = delayMs \/ ms = cooldownMs) one
                   /\ (List.length one <= 1)%nat).
    { unfold one. destruct (fst (sendToDiscord w file webhookUrl s)) as [b|e].
      - destruct (_ <? _)%Z; cbn; auto.
      - destruct (rate_limited e); cbn; auto. }
    destruct Hone as [H1 H2].
    split; [reflexivity|]. split; [now apply Forall_app|].
    rewrite length_app. cbn [List.length]. lia.
Qed.

Lemma run_trace w tz dir webhookUrl delayMs d0 :
  let q := workQueue w tz dir d0 in
  let s0 := prepared (sortedFiles w tz dir) q (start d0) in
  let s1 := snd (for_each (deliver w webhookUrl (default_delay delayMs) q) 0 q s0) in
  sendAllArchives w tz dir webhookUrl delayMs (start d0)
  = (Return (successCount s1), reported s1).
Proof.
  cbv zeta. rewrite sendAllArchives_cases. cbn [start disk].
  destruct (loop_progress w webhookUrl (default_delay delayMs)
              (workQueue w tz dir d0) (workQueue w tz dir d0) 0
              (prepared (sortedFiles w tz dir) (workQueue w tz dir d0) (start d0)))
    as (s' & pushed & E & _).
  unfold start in *. cbn [disk] in *. now rewrite E.
Qed.

Lemma loop_sleeps_accepted w webhookUrl delayMs newFiles queue :
  falsy webhookUrl = false -> accepts_all w ->
  (forall f, In f queue -> stat w f = Some RegularFile) ->
  forall i s,
    (i + List.length queue = List.length newFiles)%nat ->
    sleeps (trace (snd (for_each (deliver w webhookUrl delayMs newFiles) i queue s)))
    = (sleeps (trace s) ++ repeat delayMs (List.length queue - 1))%list.
Proof.
  intros Hurl Hacc. induction queue as [|file queue IH]; intros Hread i s Hlen.
  - cbn. now rewrite app_nil_r.
  - rewrite for_each_cons by apply deliver_returns.
    rewrite IH; [| intros f Hf; apply Hread; now right | cbn [List.length] in Hlen; lia].
    rewrite (proj2 (deliver_effect w webhookUrl delayMs newFiles i file s)).
    destruct (sendToDiscord_accepted w file webhookUrl s Hurl Hacc
                (Hread file (or_introl eq_refl))) as [s1 ->].
    cbn [fst]. rewrite <- app_assoc. f_equal.
    cbn [List.length] in *.
    destruct queue as [|file' queue].
    + cbn [List.length] in Hlen. cbn.
      destruct (Z.ltb_spec (Z.of_nat i) (Z.of_nat (List.length newFiles) - 1));
        [lia | reflexivity].
    + cbn [List.length Nat.sub] in *.
      destruct (Z.ltb_spec (Z.of_nat i) (Z.of_nat (List.length newFiles) - 1));
        [|lia].
      cbn. now rewrite Nat.sub_0_r.
Qed.

(** X10. The requests of a run: one for each file of the work queue that is
    a regular file, in the order of the queue, each to the webhook URL the
    run was given and carrying that file; nothing is requested for a file
    the sent log names or for a path that is not a regular file, and with no
    webhook URL nothing is requested at all. *)
Theorem requests_of_a_run w tz dir webhookUrl delayMs d0 :
  requests (trace (snd (sendAllArchives w tz dir webhookUrl delayMs (start d0))))
  = if falsy webhookUrl then []
    else map (fun f => post f webhookUrl)
             (filter (is_regular w) (workQueue w tz dir d0)).
Proof.
  rewrite run_trace. cbn [snd reported with_trace trace].
  rewrite requests_app, loop_requests.
  cbn [prepared trace start disk]. rewrite app_nil_l.
  destruct (header_silent d0 (sortedFiles w tz dir) (workQueue w tz dir d0))
    as (_ & -> & _).
  assert (E : forall s, requests (map Console (summary s)) = []) by reflexivity.
  now rewrite E, app_nil_r.
Qed.

(** X11. The pauses of a run: each lasts the delay the run was given or the
    60 seconds of the cooldown, and there is at most one for each file
    attempted. *)
Theorem pauses_of_a_run w tz dir webhookUrl delayMs d0 :
  let tr := trace (snd (sendAllArchives w tz dir webhookUrl delayMs (start d0))) in
  Forall (fun ms => ms = default_delay delayMs \/ ms = cooldownMs) (sleeps tr)
  /\ (List.length (sleeps tr) <= List.length (calls tr))%nat.
Proof.
  cbv zeta. rewrite run_calls, run_trace. cbn [snd reported with_trace trace].
  rewrite sleeps_app.
  destruct (loop_sleeps_bound w webhookUrl (default_delay delayMs)
              (workQueue w tz dir d0) (workQueue w tz dir d0) 0
              (prepared (sortedFiles w tz dir) (workQueue w tz dir d0) (start d0)))
    as (pauses & -> & HF & HL).
  cbn [prepared trace start disk]. rewrite app_nil_l.
  destruct (header_silent d0 (sortedFiles w tz dir) (workQueue w tz dir d0))
    as (_ & _ & -> & _).
  assert (E : forall s, sleeps (map Console (summary s)) = []) by reflexivity.
  rewrite E, app_nil_r, app_nil_l. now split.
Qed.

(** X12. When the webhook accepts every delivery and the discovered files
    can be read, a run over [n] new files pauses [n - 1] times, each time
    for the delay it was given: once between two deliveries, not after the
    last one, and not at all when there is one file or none. *)
Theorem pauses_between_deliveries w tz dir webhookUrl delayMs d0 :
  falsy webhookUrl = false -> accepts_all w -> readable w dir ->
  sleeps (trace (snd (sendAllArchives w tz dir webhookUrl delayMs (start d0))))
  = repeat (default_delay delayMs) (List.length (workQueue w tz dir d0) - 1).
Proof.
  intros Hurl Hacc Hread. rewrite run_trace.
  cbn [snd reported with_trace trace]. rewrite sleeps_app.
  rewrite loop_sleeps_accepted; try assumption; try reflexivity.
  - cbn [prepared trace start disk]. rewrite app_nil_l.
    destruct (header_silent d0 (sortedFiles w tz dir) (workQueue w tz dir d0))
      as (_ & _ & -> & _).
    assert (E : forall s, sleeps (map Console (summary s)) = []) by reflexivity.
    now rewrite E, app_nil_r, app_nil_l.
  - intros f Hf. apply Hread. now apply workQueue_In in Hf.
Qed.

Lemma pauses_between_deliveries_witness :
  sleeps (trace (snd (sendAllArchives demo_world utc_zone "archives" hook
                        (Some 3000%Z) (start Absent))))
  = repeat (default_delay (Some 3000%Z))
           (List.length (workQueue demo_world utc_zone "archives" Absent) - 1).
Proof.
  apply pauses_between_deliveries.
  - reflexivity.
  - intros hist r. exists 200%N, "". split; reflexivity.
  - intros f _. reflexivity.
Defined.


(* ===================================================================== *)
(** * The scripts *)
(* ===================================================================== *)

Lemma inner_app (a b : list pevent) : inner (a ++ b) = (inner a ++ inner b)%list.
Proof. induction a as [|[] a IH]; cbn; rewrite ?IH; reflexivity. Qed.

Lemma inner_Discord (l : list event) : inner (map Discord l) = l.
Proof. induction l; cbn; [reflexivity | now f_equal]. Qed.

Lemma closes_app (a b : list pevent) : closes (a ++ b) = (closes a + closes b)%nat.
Proof. induction a as [|[] a IH]; cbn; rewrite ?IH; reflexivity. Qed.

Lemma closes_Discord (l : list event) : closes (map Discord l) = 0%nat.
Proof. induction l; cbn; auto. Qed.

(** A call into [discord.js] by a script that has made none before. *)
Lemma lift_first {A} (m : M A) (p : process) :
  inner (ptrace p) = [] ->
  lift m p
  = let p' := {| browser := browser p; pdisk := disk (snd (m (start (pdisk p))));
                 ptrace := ptrace p
                           ++ map Discord (trace (snd (m (start (pdisk p))))) |} in
    match fst (m (start (pdisk p))) with
    | Return a => (Done a, p')
    | Throw e => (Thrown e, p')
    end.
Proof.
  intro H. unfold lift. rewrite H. unfold start. cbn [List.length skipn].
  now destruct (m _) as [[a|e] s'].
Qed.






Ltac run_script :=
  unfold screenshot_js, captured, launched, page_done, capture_events,
    close_browser, pfinally, ptry, pbind, call,
    print, set_browser, pret, pthrow, exit, record, boot;
  cbn -[capturePath archiveDir lift sendToDiscord with_file existsSync falsy].

(** X16. When the capture succeeds, [screenshot.js] ends normally whatever
    becomes of the delivery.  The browser is closed once, before anything is
    sent; [sendToDiscord] is called once, with the path of the capture, when
    a webhook URL is set, and not at all otherwise; a delivery that fails is
    reported and changes nothing else; and the sent log is left as it
    was. *)
Theorem screenshot_js_captured w b now DISCORD_WEBHOOK_URL d :
  captured w b now = true ->
  let filePath := capturePath now in
  let delivery :=
    sendToDiscord (with_file w filePath) filePath DISCORD_WEBHOOK_URL (start d) in
  screenshot_js w b now DISCORD_WEBHOOK_URL (boot d)
  = (Done tt,
     {| browser := false; pdisk := d;
        ptrace :=
          (capture_events w now
           ++ (if falsy DISCORD_WEBHOOK_URL
               then [Print WebhookNotSet; Print HowToEnable]
               else Print SendingToDiscord
                    :: map Discord (trace (snd delivery))
                    ++ [match fst delivery with
                        | Return _ => Print SentOk
                        | Throw e => Print (DiscordFailed e)
                        end]))%list |}).
Proof.
  destruct b as [mk la np sv go sc cl]. cbv zeta.
  unfold captured. cbn [mkdirSync_throws launch_throws newPage_throws
    setViewport_throws goto_throws screenshot_throws close_throws].
  intro H. apply andb_true_iff in H as [H1 H2].
  destruct la, np, sv, go, sc; try discriminate H2.
  destruct (cl 0%nat) eqn:C0; [discriminate H2|].
  destruct (existsSync w (archiveDir now)) eqn:Ex.
  - run_script. rewrite Ex. cbn [negb]. run_script. rewrite C0. run_script.
    destruct (falsy DISCORD_WEBHOOK_URL); run_script; [reflexivity|].
    rewrite lift_first by reflexivity. cbn [pdisk ptrace browser].
    destruct (sendToDiscord _ _ _ (start d)) as [r s1] eqn:E.
    apply sendToDiscord_frame in E as (_ & _ & _ & E). cbn in E.
    destruct r; run_script; rewrite E; reflexivity.
  - destruct mk; [discriminate H1|].
    run_script. rewrite Ex. cbn [negb]. run_script. rewrite C0. run_script.
    destruct (falsy DISCORD_WEBHOOK_URL); run_script; [reflexivity|].
    rewrite lift_first by reflexivity. cbn [pdisk ptrace browser].
    destruct (sendToDiscord _ _ _ (start d)) as [r s1] eqn:E.
    apply sendToDiscord_frame in E as (_ & _ & _ & E). cbn in E.
    destruct r; run_script; rewrite E; reflexivity.
Qed.

Lemma screenshot_js_captured_witness :
  let filePath := capturePath december_9 in
  let delivery :=
    sendToDiscord (with_file demo_world filePath) filePath hook (start Absent) in
  screenshot_js demo_world quiet december_9 hook (boot Absent)
  = (Done tt,
     {| browser := false; pdisk := Absent;
        ptrace :=
          (capture_events demo_world december_9
           ++ (if falsy hook
               then [Print WebhookNotSet; Print HowToEnable]
               else Print SendingToDiscord
                    :: map Discord (trace (snd delivery))
                    ++ [match fst delivery with
                        | Return _ => Print SentOk
                        | Throw e => Print (DiscordFailed e)
                        end]))%list |}).
Proof. apply screenshot_js_captured. reflexivity. Defined.

(** X17. When a step of the capture fails, [screenshot.js] ends with exit
    code 1 and nothing reaches Discord: [sendToDiscord] is not called and
    the sent log is left as it was. *)
Theorem screenshot_js_failed w b now DISCORD_WEBHOOK_URL d :
  captured w b now = false ->
  let r := screenshot_js w b now DISCORD_WEBHOOK_URL (boot d) in
  fst r = Exited 1 /\ inner (ptrace (snd r)) = [] /\ pdisk (snd r) = d.
Proof.
  destruct b as [mk la np sv go sc cl]. cbv zeta.
  unfold captured. cbn [mkdirSync_throws launch_throws newPage_throws
    setViewport_throws goto_throws screenshot_throws close_throws].
  intro H.
  destruct (existsSync w (archiveDir now)) eqn:Ex;
    run_script; rewrite Ex; cbn [negb];
    destruct mk, la, np, sv, go, sc; try discriminate H; run_script;
    repeat match goal with
           | |- context [cl ?n] => destruct (cl n) eqn:?; run_script
           end;
    try discriminate H; auto.
Qed.

Lemma screenshot_js_failed_witness :
  let r := screenshot_js demo_world
             {| mkdirSync_throws := None; launch_throws := None;
                newPage_throws := None; setViewport_throws := None;
                goto_throws := Some "Navigation timeout";
                screenshot_throws := None; close_throws := fun _ => None |}
             december_9 hook (boot Absent) in
  fst r = Exited 1 /\ inner (ptrace (snd r)) = [] /\ pdisk (snd r) = Absent.
Proof. apply screenshot_js_failed. reflexivity. Defined.

(** X18. [screenshot.js] closes the browser it launched: when
    [puppeteer.launch] returned, [browser.close()] is called once, or twice
    when the script's own call of it throws (the [finally] block then calls
    it again); when the browser was not launched it is never called. *)
Theorem browser_is_closed w b now DISCORD_WEBHOOK_URL d :
  closes (ptrace (snd (screenshot_js w b now DISCORD_WEBHOOK_URL (boot d))))
  = if launched w b now then
      if page_done b
      then match close_throws b 0 with None => 1 | Some _ => 2 end
      else 1
    else 0.
Proof.
  destruct b as [mk la np sv go sc cl].
  destruct (existsSync w (archiveDir now)) eqn:Ex;
    run_script; rewrite Ex; cbn [negb orb andb];
    destruct mk, la, np, sv, go, sc; run_script; try reflexivity;
    repeat match goal with
           | |- context [cl ?n] => destruct (cl n) eqn:?; run_script
           end;
    try reflexivity;
    (destruct (falsy DISCORD_WEBHOOK_URL); run_script; [reflexivity|];
     rewrite lift_first by reflexivity; cbn [pdisk ptrace browser];
     destruct (sendToDiscord _ _ _ (start d)) as [[r|e] s1]; run_script;
     rewrite !closes_app, closes_Discord; reflexivity).
Qed.

(* ===================================================================== *)
(** * A capture, then a sync *)
(* ===================================================================== *)

Lemma screenshot_js_log w b now DISCORD_WEBHOOK_URL d :
  pdisk (snd (screenshot_js w b now DISCORD_WEBHOOK_URL (boot d))) = d.
Proof.
  destruct b as [mk la np sv go sc cl].
  destruct (existsSync w (archiveDir now)) eqn:Ex;
    run_script; rewrite Ex; cbn [negb orb andb];
    destruct mk, la, np, sv, go, sc; run_script; try reflexivity;
    repeat match goal with
           | |- context [cl ?n] => destruct (cl n) eqn:?; run_script
           end;
    try reflexivity;
    (destruct (falsy DISCORD_WEBHOOK_URL); run_script; [reflexivity|];
     rewrite lift_first by reflexivity; cbn [pdisk ptrace browser];
     destruct (sendToDiscord _ _ _ (start d)) as [[r|e] s1] eqn:E;
     apply sendToDiscord_frame in E as (_ & _ & _ & E); run_script;
     exact E).
Qed.

(** X19. [screenshot.js] does not record what it delivers: the sent log is
    the same after it as before, whatever happened.  So a sync that runs
    after it, finds the capture in the archive and does not find its path in
    the sent log calls [sendToDiscord] for the capture, also when
    [screenshot.js] has delivered it already. *)
Theorem capture_is_delivered_again w b now url d w' tz dir WEBHOOK_URL delayMs :
  In (archivedPath dir now) (getAllPngFiles w' dir) ->
  ~ In (archivedPath dir now) (recorded d) ->
  let after := snd (screenshot_js w b now url (boot d)) in
  pdisk after = d
  /\ In (archivedPath dir now)
        (calls (trace (snd (sendAllArchives w' tz dir WEBHOOK_URL delayMs
                              (start (pdisk after)))))).
Proof.
  intros Hin Hlog. cbv zeta. rewrite screenshot_js_log.
  split; [reflexivity|]. rewrite run_calls. apply workQueue_In. now split.
Qed.

Lemma capture_is_delivered_again_witness :
  let after := snd (screenshot_js demo_world quiet december_9 hook (boot Absent)) in
  pdisk after = Absent
  /\ In (archivedPath "archives" december_9)
        (calls (trace (snd (sendAllArchives demo_world utc_zone "archives" hook
                              None (start (pdisk after)))))).
Proof.
  apply capture_is_delivered_again.
  - vm_compute. now left.
  - simpl. intros [].
Defined.

(* ===================================================================== *)
(** * The two revisions *)
(* ===================================================================== *)


(* ===================================================================== *)
(** * Names without a date *)
(* ===================================================================== *)

Local Open Scope Z_scope.

(** X21. A file whose name is not of the pattern is dated 1 January 1970,
    so the comparator of the sync puts every capture of [screenshot.js]
    taken from 1971 on after it. *)
Theorem undated_before_captures (LocalTZA : Z -> Z) (now : clock) (p : string) :
  zone LocalTZA -> on_calendar now -> 1971 <= Z.of_N (getFullYear now) ->
  match_date (basename p) = None ->
  extractDateFromPath LocalTZA p = Num 0
  /\ goes_after (by_date LocalTZA (capturePath now) p) = true
  /\ goes_after (by_date LocalTZA p (capturePath now)) = false.
Proof.
  intros Hz Hc Hy Hp.
  assert (E : extractDateFromPath LocalTZA p = Num 0)
    by (unfold extractDateFromPath; now rewrite Hp).
  split; [exact E|]. unfold by_date. rewrite E, capture_time by assumption.
  cbn [num_sub goes_after].
  destruct (capture_day now Hc) as [_ B].
  pose proof Hc as (Hy' & Hm & Hd).
  assert (Rm : 0 <= Z.of_nat (getMonth now) <= 11) by lia.
  pose proof (MakeDay_bounds _ _ _ Rm Hd) as [B1 _].
  pose proof (DayFromYear_mono 1971 (Z.of_N (getFullYear now)) Hy) as M.
  assert (E1 : DayFromYear 1971 = 365) by (vm_compute; reflexivity).
  destruct Hz as [Hz _].
  set (t := MakeDate _ 0) in *. specialize (Hz t).
  assert (365 * msPerDay <= t) by (unfold t, MakeDate, msPerDay; lia).
  unfold msPerDay in *.
  split; [apply Z.ltb_lt | apply Z.ltb_ge]; lia.
Qed.

Lemma undated_before_captures_witness :
  extractDateFromPath utc_zone "archives/notes.png" = Num 0
  /\ goes_after (by_date utc_zone (capturePath december_9) "archives/notes.png")
     = true
  /\ goes_after (by_date utc_zone "archives/notes.png" (capturePath december_9))
     = false.
Proof.
  apply undated_before_captures.
  - split; intros; unfold utc_zone, msPerDay; simpl; lia.
  - split; [|split]; vm_compute; lia || (split; discriminate).
  - vm_compute. discriminate.
  - reflexivity.
Defined.

Local Close Scope Z_scope.

(* ===================================================================== *)
(** * Edge cases *)
(* ===================================================================== *)

Lemma replace_extension (s : string) :
  includes s "." = false -> replace (s ++ ".png") ".png" "" = s.
Proof.
  induction s as [|c s IH]; intro H; [reflexivity|].
  cbn [includes] in H. apply orb_false_iff in H as [Hc Hs].
  cbn [append replace].
  assert (E : String.prefix ".png" (String c (s ++ ".png")) = false).
  { revert Hc. cbn [String.prefix].
    destruct (ascii_dec "." c); [intro Hc; destruct s; discriminate Hc | reflexivity]. }
  rewrite E. now rewrite IH.
Qed.

(** X22. The date line of a file whose name is not of the pattern: the name
    without its extension, when the name has no other dot. *)
Theorem formattedDate_other (s : string) :
  match_date (s ++ ".png") = None -> includes s "." = false ->
  formattedDate (s ++ ".png") = s.
Proof.
  intros E H. unfold formattedDate. rewrite E. now apply replace_extension.
Qed.

Lemma formattedDate_other_witness :
  formattedDate ("cover" ++ ".png") = "cover".
Proof. apply formattedDate_other; reflexivity. Defined.

Local Open Scope Z_scope.

(** X23. A delay of zero cannot be set: when [DISCORD_DELAY_MS] is [0],
    after any white space and before anything that is not a digit nor the
    [x] of a hexadecimal number, [DELAY_MS] is 2000. *)
Theorem DELAY_MS_zero (ws rest : string) :
  all_in is_space ws = true ->
  match rest with
  | "" => True
  | String c _ => is_digit c = false /\ c <> "x"%char /\ c <> "X"%char
  end ->
  DELAY_MS_env (Some (ws ++ "0" ++ rest)) = 2000.
Proof.
  intros Hws Hrest. unfold DELAY_MS_env, ToString, parseInt_text.
  rewrite trimStart_app; [|assumption|reflexivity].
  cbn [append].
  destruct rest as [|c r]; [reflexivity|].
  destruct Hrest as (Hd & Hx & HX). revert Hd Hx HX. clear.
  destruct c as [[|] [|] [|] [|] [|] [|] [|] [|]]; intros Hd Hx HX;
    try reflexivity; try discriminate Hd; congruence.
Qed.

Lemma DELAY_MS_zero_witness : DELAY_MS_env (Some ("" ++ "0" ++ "")) = 2000.
Proof. apply DELAY_MS_zero; reflexivity. Defined.

Local Close Scope Z_scope.

Lemma loop_without_webhook w webhookUrl delayMs newFiles queue :
  falsy webhookUrl = true ->
  forall i s,
    let s' := snd (for_each (deliver w webhookUrl delayMs newFiles) i queue s) in
    sentFiles s' = sentFiles s /\ successCount s' = successCount s
    /\ disk s' = disk s
    /\ sleeps (trace s') = sleeps (trace s)
    /\ requests (trace s') = requests (trace s)
    /\ failures (trace s') = failures (trace s) + List.length queue.
Proof.
  intro H. induction queue as [|file queue IH]; intros i s; cbv zeta.
  - cbn. repeat split; lia.
  - rewrite for_each_cons by apply deliver_returns.
    destruct (IH (S i) (snd (deliver w webhookUrl delayMs newFiles i file s)))
      as (-> & -> & -> & -> & -> & ->).
    rewrite deliver_cases, sendToDiscord_cases, H.
    assert (R : rate_limited webhook_required = false) by (vm_compute; reflexivity).
    cbn [snd after_failure with_trace sentFiles successCount disk trace].
    rewrite R, !sleeps_app, !requests_app, !failures_app.
    cbn [sleeps requests failures List.length]. rewrite !app_nil_r.
    repeat split; lia.
Qed.

(** X24. [sendAllArchives] called without a webhook URL still goes through
    the whole work queue: every delivery fails, the run returns 0, it
    requests nothing, never pauses, and leaves the sent log as it found
    it. *)
Theorem run_without_webhook w tz dir webhookUrl delayMs d0 :
  falsy webhookUrl = true ->
  let run := sendAllArchives w tz dir webhookUrl delayMs (start d0) in
  fst run = Return 0
  /\ failures (trace (snd run)) = List.length (workQueue w tz dir d0)
  /\ requests (trace (snd run)) = []
  /\ sleeps (trace (snd run)) = []
  /\ disk (snd run) = d0.
Proof.
  intro H. cbv zeta. rewrite run_trace.
  destruct (loop_without_webhook w webhookUrl (default_delay delayMs)
              (workQueue w tz dir d0) (workQueue w tz dir d0) H 0
              (prepared (sortedFiles w tz dir) (workQueue w tz dir d0) (start d0)))
    as (_ & E2 & E3 & E4 & E5 & E6).
  cbn [fst snd reported with_trace trace disk].
  rewrite failures_app, requests_app, sleeps_app, E2, E3, E4, E5, E6.
  cbn [prepared successCount disk trace start]. rewrite !app_nil_l.
  destruct (header_silent d0 (sortedFiles w tz dir) (workQueue w tz dir d0))
    as (_ & -> & -> & _ & ->).
  repeat split. cbn [summary map failures]. lia.
Qed.

Lemma run_without_webhook_witness :
  let run := sendAllArchives demo_world utc_zone "archives" None None
               (start Absent) in
  fst run = Return 0
  /\ failures (trace (snd run))
     = List.length (workQueue demo_world utc_zone "archives" Absent)
  /\ requests (trace (snd run)) = []
  /\ sleeps (trace (snd run)) = []
  /\ disk (snd run) = Absent.
Proof. apply run_without_webhook. reflexivity. Defined.
